(** * SSH-Executor: the front-end's view of the batch engine

    A shallow embedding of the TypeScript sources that classify failure
    messages ([src/utils/errorMessages.ts]), validate hosts and stored
    records ([src/utils/validation.ts]) and keep the per-host retry
    bookkeeping of the batch page ([src/pages/Workspace.tsx]), together
    with the properties the specification states about them.

    Conventions.
    - A JavaScript string is a [string]: the bytes of its UTF-8 encoding.
      For well-formed text, substring search on the bytes agrees with
      [String.prototype.includes] on UTF-16 code units, because a UTF-8
      needle can only occur at character boundaries.
    - A [number] that only ever holds a count is a [nat]; seconds are [Z];
      the reconnect delay base, which may be fractional, is a [Q].
    - Builtins whose full Unicode tables are not part of the repository
      ([toLowerCase], [trim]) are section variables: every theorem holds for
      whatever these functions compute.  The closed examples instantiate them
      with [ascii_cyrillic_lower] and [ascii_trim]. *)

From Stdlib Require Import ZArith QArith Qpower Qminmax List String Ascii Bool Lia.
From stdpp Require Import base gmap strings list pretty.

Open Scope string_scope.

(** ** JavaScript strings *)

Module Js.

(** [s.includes(p)]: [p] occurs in [s] as a contiguous block. *)
Fixpoint includes (s p : string) : bool :=
  String.prefix p s ||
  match s with
  | EmptyString => false
  | String _ s' => includes s' p
  end.

(** [s.startsWith(p)]. *)
Definition startsWith (s p : string) : bool := String.prefix p s.

(** [s.length]: the number of UTF-16 code units.  A UTF-8 continuation
    byte adds nothing, the lead byte of a four-byte sequence stands for a
    surrogate pair, every other byte for one unit. *)
Definition code_units (c : ascii) : nat :=
  let n := nat_of_ascii c in
  if (128 <=? n)%nat && (n <? 192)%nat then 0%nat
  else if (240 <=? n)%nat then 2%nat
  else 1%nat.

Fixpoint length (s : string) : nat :=
  match s with
  | EmptyString => 0%nat
  | String c s' => (code_units c + length s')%nat
  end.

(** [!s] for a string: only the empty string is falsy. *)
Definition falsy (s : string) : bool :=
  match s with
  | EmptyString => true
  | String _ _ => false
  end.

(** A parameter of type [string | null | undefined]. *)
Inductive optstring : Type :=
| Undefined
| Null
| Str (s : string).

(** A field of type [T | null]. *)
Definition of_nullable (o : option string) : optstring :=
  match o with
  | None => Null
  | Some s => Str s
  end.

(** [o !== null] *)
Definition non_null {A : Type} (o : option A) : bool :=
  match o with
  | None => false
  | Some _ => true
  end.

(** [o?.includes(p)] used as a condition: [undefined] is falsy. *)
Definition opt_includes (o : option string) (p : string) : bool :=
  match o with
  | None => false
  | Some s => includes s p
  end.

End Js.

(** ** errorMessages.ts: the retry classifier *)

Module ErrorMessages.
Import Js.

(** The conditions of the [if] statements of [isRetryableError], in source
    order, each over the lower-cased message. *)

Definition mentionsAuthentication (errorLower : string) : bool :=
  includes errorLower "authentication" || includes errorLower "аутентификац" ||
  includes errorLower "permission denied".

Definition mentionsBadKey (errorLower : string) : bool :=
  (includes errorLower "key" || includes errorLower "ключ") &&
  (includes errorLower "invalid" || includes errorLower "неверн" ||
   includes errorLower "combination invalid" || includes errorLower "не подошел" ||
   includes errorLower "not found" || includes errorLower "не найден" ||
   includes errorLower "file not found" || includes errorLower "файл ключа не найден").

Definition mentionsPassword (errorLower : string) : bool :=
  includes errorLower "password" || includes errorLower "парол".

Definition mentionsUser (errorLower : string) : bool :=
  includes errorLower "username" || includes errorLower "пользовател" ||
  includes errorLower "user" && includes errorLower "invalid".

Definition mentionsValidation (errorLower : string) : bool :=
  includes errorLower "валидац" || includes errorLower "validation" ||
  includes errorLower "безопасност" || includes errorLower "dangerous".

Definition mentionsKeyFile (errorLower : string) : bool :=
  includes errorLower "key file not found" || includes errorLower "файл ключа не найден" ||
  includes errorLower "key path" && includes errorLower "not found".

Definition mentionsBadFormat (errorLower : string) : bool :=
  includes errorLower "invalid format" || includes errorLower "неверный формат" ||
  includes errorLower "invalid configuration" || includes errorLower "неверная конфигурация".

Definition mentionsConnection (errorLower : string) : bool :=
  includes errorLower "connection" || includes errorLower "подключ".

Definition mentionsTimeout (errorLower : string) : bool :=
  includes errorLower "timeout" || includes errorLower "таймаут".

Definition mentionsRefused (errorLower : string) : bool :=
  includes errorLower "refused" || includes errorLower "отклонено".

Definition mentionsNoRoute (errorLower : string) : bool :=
  includes errorLower "no route" || includes errorLower "нет маршрута".

Definition mentionsNetwork (errorLower : string) : bool :=
  includes errorLower "network" || includes errorLower "сеть" ||
  includes errorLower "dns" || includes errorLower "resolve".

Definition mentionsExecution (errorLower : string) : bool :=
  includes errorLower "execute" || includes errorLower "выполнен" ||
  includes errorLower "command" && includes errorLower "error".

(** The message falls in one of the categories the classifier knows:
    authentication, validation, key file, format or configuration,
    connection (which covers its timeouts), network, command execution. *)
Definition knownCategory (errorLower : string) : bool :=
  mentionsAuthentication errorLower || mentionsValidation errorLower ||
  mentionsKeyFile errorLower || mentionsBadFormat errorLower ||
  mentionsConnection errorLower || mentionsNetwork errorLower ||
  mentionsExecution errorLower.

Section Classifier.

(** [String.prototype.toLowerCase]. *)
Variable toLowerCase : string -> string.

Definition isRetryableError (error : optstring) : bool :=
  match error with
  | Undefined => false
  | Null => false
  | Str error =>
    if falsy error then false else
    let errorLower := toLowerCase error in
    if mentionsAuthentication errorLower then
      if mentionsBadKey errorLower then false
      else if mentionsPassword errorLower then false
      else if mentionsUser errorLower then false
      else false
    else if mentionsValidation errorLower then false
    else if mentionsKeyFile errorLower then false
    else if mentionsBadFormat errorLower then false
    else if mentionsConnection errorLower then
      if mentionsTimeout errorLower then true
      else if mentionsRefused errorLower then true
      else if mentionsNoRoute errorLower then true
      else true
    else if mentionsNetwork errorLower then true
    else if mentionsExecution errorLower then false
    else true
  end.

End Classifier.

(** [toLowerCase] on the ASCII letters and on the Cyrillic block
    U+0400..U+042F (two UTF-8 bytes with lead byte D0), where it agrees with
    the builtin; other bytes are kept.  Used to run the examples. *)
Definition lower_ascii (c : ascii) : ascii :=
  let n := nat_of_ascii c in
  if (65 <=? n)%nat && (n <=? 90)%nat then ascii_of_nat (n + 32) else c.

Fixpoint ascii_cyrillic_lower (s : string) : string :=
  match s with
  | EmptyString => EmptyString
  | String c rest =>
    match rest with
    | String d rest' =>
      let n := nat_of_ascii d in
      if (nat_of_ascii c =? 208)%nat then
        if (128 <=? n)%nat && (n <=? 143)%nat then
          String (ascii_of_nat 209) (String (ascii_of_nat (n + 16)) (ascii_cyrillic_lower rest'))
        else if (144 <=? n)%nat && (n <=? 159)%nat then
          String c (String (ascii_of_nat (n + 32)) (ascii_cyrillic_lower rest'))
        else if (160 <=? n)%nat && (n <=? 175)%nat then
          String (ascii_of_nat 209) (String (ascii_of_nat (n - 32)) (ascii_cyrillic_lower rest'))
        else String c (ascii_cyrillic_lower rest)
      else String (lower_ascii c) (ascii_cyrillic_lower rest)
    | EmptyString => String (lower_ascii c) EmptyString
    end
  end.

End ErrorMessages.

(** ** Regular expressions

    The two patterns of [validation.ts] are anchored with [^] and [$] and
    are only used through [RegExp.prototype.test], so what matters is whether
    the whole string belongs to the pattern's language.  Membership is decided
    with derivatives; [lang] is the language itself. *)

Module Regex.

Inductive regex : Type :=
| Void
| Eps
| Class (p : ascii -> bool)
| Cat (r1 r2 : regex)
| Alt (r1 r2 : regex)
| Star (r : regex).

(** [r?] *)
Definition Opt (r : regex) : regex := Alt Eps r.

(** [r{n}] *)
Fixpoint power (n : nat) (r : regex) : regex :=
  match n with
  | O => Eps
  | S n' => Cat r (power n' r)
  end.

(** [r{0,n}] *)
Fixpoint upto (n : nat) (r : regex) : regex :=
  match n with
  | O => Eps
  | S n' => Opt (Cat r (upto n' r))
  end.

(** [r{lo,hi}] *)
Definition Repeat (lo hi : nat) (r : regex) : regex :=
  Cat (power lo r) (upto (hi - lo) r).

(** [c] lies between [lo] and [hi], as in the class [[lo-hi]]. *)
Definition between (lo hi c : ascii) : bool :=
  (nat_of_ascii lo <=? nat_of_ascii c)%nat && (nat_of_ascii c <=? nat_of_ascii hi)%nat.

Definition Chr (a : ascii) : regex := Class (Ascii.eqb a).

(** The strings a pattern matches in full. *)
Inductive lang : regex -> string -> Prop :=
| lang_eps : lang Eps EmptyString
| lang_class (p : ascii -> bool) (c : ascii) :
    p c = true -> lang (Class p) (String c EmptyString)
| lang_cat (r1 r2 : regex) (s1 s2 : string) :
    lang r1 s1 -> lang r2 s2 -> lang (Cat r1 r2) (s1 ++ s2)
| lang_alt_l (r1 r2 : regex) (s : string) :
    lang r1 s -> lang (Alt r1 r2) s
| lang_alt_r (r1 r2 : regex) (s : string) :
    lang r2 s -> lang (Alt r1 r2) s
| lang_star_nil (r : regex) : lang (Star r) EmptyString
| lang_star_cons (r : regex) (s1 s2 : string) :
    lang r s1 -> lang (Star r) s2 -> lang (Star r) (s1 ++ s2).

Fixpoint nullable (r : regex) : bool :=
  match r with
  | Void => false
  | Eps => true
  | Class _ => false
  | Cat r1 r2 => nullable r1 && nullable r2
  | Alt r1 r2 => nullable r1 || nullable r2
  | Star _ => true
  end.

Fixpoint deriv (c : ascii) (r : regex) : regex :=
  match r with
  | Void => Void
  | Eps => Void
  | Class p => if p c then Eps else Void
  | Cat r1 r2 =>
    if nullable r1 then Alt (Cat (deriv c r1) r2) (deriv c r2)
    else Cat (deriv c r1) r2
  | Alt r1 r2 => Alt (deriv c r1) (deriv c r2)
  | Star r1 => Cat (deriv c r1) (Star r1)
  end.

(** [/^r$/.test(s)] *)
Fixpoint test (r : regex) (s : string) : bool :=
  match s with
  | EmptyString => nullable r
  | String c s' => test (deriv c r) s'
  end.

(** The language of [r] is syntactically empty. *)
Fixpoint is_void (r : regex) : bool :=
  match r with
  | Void => true
  | Cat r1 r2 => is_void r1 || is_void r2
  | Alt r1 r2 => is_void r1 && is_void r2
  | _ => false
  end.

(** Some character class of [r] contains [c]. *)
Fixpoint in_alphabet (r : regex) (c : ascii) : bool :=
  match r with
  | Void => false
  | Eps => false
  | Class p => p c
  | Cat r1 r2 => in_alphabet r1 c || in_alphabet r2 c
  | Alt r1 r2 => in_alphabet r1 c || in_alphabet r2 c
  | Star r1 => in_alphabet r1 c
  end.

End Regex.

(** ** Untyped data

    What [JSON.parse] hands to the validators of [validation.ts], whose
    parameter has type [any]. *)

Module Json.

Local Unset Elimination Schemes.

Inductive value : Type :=
| VUndefined
| VNull
| VBool (b : bool)
| VNumber (n : Q)
| VString (s : string)
| VArray (items : list value)
| VObject (props : list (string * value)).

Local Set Elimination Schemes.

(** [typeof v] *)
Definition typeof (v : value) : string :=
  match v with
  | VUndefined => "undefined"
  | VNull => "object"
  | VBool _ => "boolean"
  | VNumber _ => "number"
  | VString _ => "string"
  | VArray _ => "object"
  | VObject _ => "object"
  end.

(** [v === null] *)
Definition is_null (v : value) : bool :=
  match v with
  | VNull => true
  | _ => false
  end.

(** [v === undefined] *)
Definition is_undefined (v : value) : bool :=
  match v with
  | VUndefined => true
  | _ => false
  end.

Fixpoint lookup_prop (key : string) (props : list (string * value)) : value :=
  match props with
  | [] => VUndefined
  | (k, v) :: rest => if String.eqb k key then v else lookup_prop key rest
  end.

(** [data.key] for the property names the validators read, none of which
    is an array index or [length].  The validators guard every access with
    [typeof data === 'object' && data !== null], so the access never throws;
    a missing property reads as [undefined]. *)
Definition get (data : value) (key : string) : value :=
  match data with
  | VObject props => lookup_prop key props
  | _ => VUndefined
  end.

(** The object has [key] among its own properties. *)
Definition has_key (data : value) (key : string) : bool :=
  match data with
  | VObject props => existsb (String.eqb key) (map fst props)
  | _ => false
  end.

(** An optional field of an object literal: an absent one reads, and is
    serialised, as [undefined]. *)
Definition optional {A : Type} (f : A -> value) (o : option A) : value :=
  match o with
  | None => VUndefined
  | Some a => f a
  end.

(** A field of type [T | null]. *)
Definition nullable_value {A : Type} (f : A -> value) (o : option A) : value :=
  match o with
  | None => VNull
  | Some a => f a
  end.

Definition VInt (z : Z) : value := VNumber (inject_Z z).

End Json.

(** ** validation.ts *)

Module Validation.
Import Js Regex Json.

(** [\d] *)
Definition digit : regex := Class (between "0" "9").

(** [[a-zA-Z0-9]] *)
Definition alnum : regex :=
  Class (fun c => between "a" "z" c || between "A" "Z" c || between "0" "9" c).

(** [[a-zA-Z0-9-]] *)
Definition alnum_dash : regex :=
  Class (fun c => between "a" "z" c || between "A" "Z" c || between "0" "9" c ||
                  Ascii.eqb "-" c).

(** [/^(\d{1,3}\.){3}\d{1,3}$/] *)
Definition ipRegex : regex :=
  Cat (Repeat 3 3 (Cat (Repeat 1 3 digit) (Chr "."))) (Repeat 1 3 digit).

(** [[a-zA-Z0-9]([a-zA-Z0-9-]{0,61}[a-zA-Z0-9])?] *)
Definition label : regex :=
  Cat alnum (Opt (Cat (Repeat 0 61 alnum_dash) alnum)).

(** [/^label(\.label)*$/] *)
Definition hostnameRegex : regex :=
  Cat label (Star (Cat (Chr ".") label)).

(** [s.split(sep)] for a one-character separator. *)
Fixpoint split (sep : ascii) (s : string) : list string :=
  match s with
  | EmptyString => [EmptyString]
  | String c s' =>
    if Ascii.eqb c sep then EmptyString :: split sep s'
    else match split sep s' with
         | part :: parts => String c part :: parts
         | [] => [String c EmptyString]
         end
  end.

(** [Number(s)] on strings of decimal digits, the only ones that reach it
    once [ipRegex] has matched; [None] stands for [NaN]. *)
Fixpoint digits (acc : N) (s : string) : option N :=
  match s with
  | EmptyString => Some acc
  | String c s' =>
    if between "0" "9" c
    then digits (10 * acc + (N_of_ascii c - 48)) s'
    else None
  end.

Definition Number (s : string) : option N := digits 0 s.

Definition validateIp (ip : string) : bool :=
  if negb (test ipRegex ip) then false else
  let parts := split "." ip in
  forallb (fun part =>
    if (1 <? Js.length part)%nat && startsWith part "0" then false else
    match Number part with
    | Some num => (0 <=? num)%N && (num <=? 255)%N
    | None => false
    end) parts.

Definition validatePort (port : Z) : bool :=
  (0 <? port)%Z && (port <=? 65535)%Z.

Definition validateHostname (hostname : string) : bool :=
  if (Js.length hostname =? 0)%nat || (253 <? Js.length hostname)%nat
  then false
  else test hostnameRegex hostname.

Record SshConfigInput : Type := {
  host : string;
  port : Z;
  username : string;
  auth_method : string;
  password : option string;
  key_path : option string;
  ppk_path : option string;
  passwordMinLength : option Z
}.

Record ValidationResult : Type := {
  valid : bool;
  errors : list string
}.

Definition hostError : string := "Неверный формат хоста или IP-адреса".
Definition portError : string := "Неверный порт (должен быть от 1 до 65535)".
Definition usernameError : string := "Имя пользователя не указано".
Definition passwordError : string := "Пароль не указан".
Definition keyError : string :=
  "Выбран метод аутентификации по ключу, но путь к ключу не указан".
Definition ppkError : string :=
  "Выбран метод аутентификации по PPK ключу, но путь к ключу не указан".

(** [errors.push(e)] *)
Definition push (errors : list string) (e : string) : list string :=
  (errors ++ [e])%list.

Section SshConfig.

(** [String.prototype.trim]. *)
Variable trim : string -> string.

(** [!s || s.trim().length === 0] for an optional string. *)
Definition blank (o : option string) : bool :=
  match o with
  | None => true
  | Some s => falsy s || (Js.length (trim s) =? 0)%nat
  end.

Definition validateSshConfig (config : SshConfigInput) : ValidationResult :=
  let errors : list string := [] in
  let errors :=
    if falsy (host config) || String.eqb (host config) "batch" then errors
    else if negb (validateIp (host config)) && negb (validateHostname (host config))
    then push errors hostError
    else errors in
  let errors :=
    if negb (validatePort (port config)) then push errors portError else errors in
  let errors :=
    if blank (Some (username config)) then push errors usernameError else errors in
  let errors :=
    if String.eqb (auth_method config) "password" then
      match password config with
      | None => push errors passwordError
      | Some pw =>
        if falsy pw then push errors passwordError else
        match passwordMinLength config with
        | Some minLength =>
          if negb (minLength =? 0)%Z && (Z.of_nat (Js.length pw) <? minLength)%Z
          then push errors ("Пароль должен содержать минимум " ++ pretty minLength ++ " символов")
          else errors
        | None => errors
        end
      end
    else errors in
  let errors :=
    if String.eqb (auth_method config) "key" then
      if blank (key_path config) then push errors keyError else errors
    else errors in
  let errors :=
    if String.eqb (auth_method config) "ppk" then
      if blank (ppk_path config) then push errors ppkError else errors
    else errors in
  {| valid := (List.length errors =? 0)%nat; errors := errors |}.

End SshConfig.

Definition isValidCommandResult (data : value) : bool :=
  String.eqb (typeof data) "object" &&
  negb (is_null data) &&
  String.eqb (typeof (get data "stdout")) "string" &&
  String.eqb (typeof (get data "stderr")) "string" &&
  String.eqb (typeof (get data "exit_status")) "number" &&
  String.eqb (typeof (get data "host")) "string" &&
  (is_undefined (get data "vehicle_id") ||
   String.eqb (typeof (get data "vehicle_id")) "string") &&
  (is_undefined (get data "timestamp") ||
   String.eqb (typeof (get data "timestamp")) "string").

Definition isValidBatchCommandResult (data : value) : bool :=
  String.eqb (typeof data) "object" &&
  negb (is_null data) &&
  String.eqb (typeof (get data "host")) "string" &&
  (is_null (get data "result") || isValidCommandResult (get data "result")) &&
  (is_null (get data "error") || String.eqb (typeof (get data "error")) "string") &&
  (is_undefined (get data "timestamp") ||
   String.eqb (typeof (get data "timestamp")) "string").

(** [Array.isArray(data) && data.every(isValidBatchCommandResult)] *)
Definition isValidBatchCommandResultArray (data : value) : bool :=
  match data with
  | VArray items => forallb isValidBatchCommandResult items
  | _ => false
  end.

(** [trim] for strings whose white space is ASCII (space, tab, line feed,
    vertical tab, form feed, carriage return).  Used to run the examples. *)
Definition ascii_space (c : ascii) : bool :=
  let n := nat_of_ascii c in
  (n =? 32)%nat || (9 <=? n)%nat && (n <=? 13)%nat.

Fixpoint trim_start (s : string) : string :=
  match s with
  | EmptyString => EmptyString
  | String c s' => if ascii_space c then trim_start s' else s
  end.

Fixpoint trim_end (s : string) : string :=
  match s with
  | EmptyString => EmptyString
  | String c s' =>
    match trim_end s' with
    | EmptyString => if ascii_space c then EmptyString else String c EmptyString
    | t => String c t
    end
  end.

Definition ascii_trim (s : string) : string := trim_end (trim_start s).

End Validation.

(** ** The records of the front end ([types]) *)

Module Types.
Import Json.

Record HostEntry : Type := {
  ip : string;
  port : option Z;
  hostname : option string;
  metadata : list (string * string);
  group : option string;
  color : option string;
  tags : option (list string)
}.

Record CommandResult : Type := {
  stdout : string;
  stderr : string;
  exit_status : Z;
  cr_host : string;
  vehicle_id : option string;
  cr_timestamp : option string;
  command : option string
}.

Record BatchCommandResult : Type := {
  result : option CommandResult;
  error : option string;
  host : string;
  timestamp : option string
}.

(** The objects these records are at run time. *)
Definition HostEntry_value (h : HostEntry) : value :=
  VObject [("ip", VString (ip h));
           ("port", optional VInt (port h));
           ("hostname", optional VString (hostname h));
           ("metadata", VObject (map (fun kv => (fst kv, VString (snd kv))) (metadata h)));
           ("group", optional VString (group h));
           ("color", optional VString (color h));
           ("tags", optional (fun l => VArray (map VString l)) (tags h))].

Definition CommandResult_value (r : CommandResult) : value :=
  VObject [("stdout", VString (stdout r));
           ("stderr", VString (stderr r));
           ("exit_status", VInt (exit_status r));
           ("host", VString (cr_host r));
           ("vehicle_id", optional VString (vehicle_id r));
           ("timestamp", optional VString (cr_timestamp r));
           ("command", optional VString (command r))].

Definition BatchCommandResult_value (r : BatchCommandResult) : value :=
  VObject [("result", nullable_value CommandResult_value (result r));
           ("error", nullable_value VString (error r));
           ("host", VString (host r));
           ("timestamp", optional VString (timestamp r))].

End Types.

(** ** pages/Workspace.tsx: batch execution and retry bookkeeping *)

Module Workspace.
Import Js Json Types ErrorMessages.

(** The fields of [settings.connection] and [settings.security] that the
    batch page reads.  [retryMaxAttempts] is a count; the settings screen
    keeps it between 0 and 100. *)
Record Settings : Type := {
  defaultTimeout : Z;
  maxConcurrent : Z;
  keepAliveInterval : Z;
  reconnectAttempts : Z;
  reconnectDelayBase : Q;
  compressionEnabled : bool;
  compressionLevel : Z;
  retryFailedHosts : bool;
  retryInterval : Z;
  retryMaxAttempts : nat;
  disableCommandValidation : bool
}.

Record BatchConfig : Type := {
  bc_port : Z;
  bc_username : string;
  bc_auth_method : string;
  bc_password : option string;
  bc_key_path : option string;
  bc_ppk_path : option string;
  bc_passphrase : option string;
  bc_timeout : Z;
  bc_max_concurrent : Z
}.

(** *** handleBatchExecute: the placeholders and the request *)

(** [addTimestamp] of [resultsCleanup.ts]; [now] is what
    [new Date().toISOString()] returns. *)
Definition addTimestamp (now : string) (r : BatchCommandResult) : BatchCommandResult :=
  {| result := result r; error := error r; host := host r; timestamp := Some now |}.

(** [initialResults], then [resultsWithTimestamp]: one record per host, shown
    as "in progress" until its result arrives. *)
Definition initialResults (now : string) (hosts : list HostEntry) : list BatchCommandResult :=
  map (fun host => {| result := None; error := None; host := ip host; timestamp := Some now |})
      hosts.

Definition resultsWithTimestamp (now : string) (hosts : list HostEntry) : list BatchCommandResult :=
  map (addTimestamp now) (initialResults now hosts).

(** [cond ? x : undefined] *)
Definition when_method (batchConfig : BatchConfig) (method : string) (o : option string) : value :=
  if String.eqb (bc_auth_method batchConfig) method then optional VString o else VUndefined.

Definition sshConfig (batchConfig : BatchConfig) (settings : Settings) : value :=
  VObject [("host", VString "");
           ("port", VInt (bc_port batchConfig));
           ("username", VString (bc_username batchConfig));
           ("auth_method", VString (bc_auth_method batchConfig));
           ("password", when_method batchConfig "password" (bc_password batchConfig));
           ("key_path", when_method batchConfig "key" (bc_key_path batchConfig));
           ("ppk_path", when_method batchConfig "ppk" (bc_ppk_path batchConfig));
           ("passphrase", optional VString (bc_passphrase batchConfig));
           ("timeout", VInt (bc_timeout batchConfig));
           ("keep_alive_interval", VInt (keepAliveInterval settings));
           ("reconnect_attempts", VInt (reconnectAttempts settings));
           ("reconnect_delay_base", VNumber (reconnectDelayBase settings));
           ("compression_enabled", VBool (compressionEnabled settings));
           ("compression_level", VInt (compressionLevel settings))].

(** The [request] argument of [invoke('execute_batch_commands', ...)]. *)
Definition batchRequest (hosts : list HostEntry) (batchConfig : BatchConfig)
    (settings : Settings) (command : string) : value :=
  VObject [("hosts", VArray (map HostEntry_value hosts));
           ("config_template", sshConfig batchConfig settings);
           ("command", VString command);
           ("max_concurrent", VInt (bc_max_concurrent batchConfig));
           ("retry_failed_hosts", VBool (retryFailedHosts settings));
           ("retry_interval", VInt (retryInterval settings));
           ("skip_validation", VBool (disableCommandValidation settings))].

(** *** estimatedExecutionTime *)

(** [a || b] on numbers: [0] is falsy. *)
Definition Q_or (a b : Q) : Q := if Qeq_bool a 0 then b else a.

Definition delaySum (reconnectAttempts : Z) (reconnectDelayBase : Q) : Q :=
  let delayBase := Q_or reconnectDelayBase 1 in
  if (1 <? reconnectAttempts)%Z
  then delayBase * (2 ^ (reconnectAttempts - 1) - 1)
  else 0.

Definition worstCasePerHost (timeout : Q) (reconnectAttempts : Z) (reconnectDelayBase : Q) : Q :=
  timeout * inject_Z reconnectAttempts + delaySum reconnectAttempts reconnectDelayBase.

(** The delay the engine waits before its [i]-th reconnect, counted from 1:
    [base], [2 base], [4 base], ... as the settings screen explains it. *)
Definition retryDelay (base : Q) (i : nat) : Q := base * 2 ^ (Z.of_nat i - 1).

Fixpoint sumQ (l : list Q) : Q :=
  match l with
  | [] => 0
  | x :: rest => x + sumQ rest
  end.

(** *** The retry state of the page

    [retryTimers] and [retryAttempts] are [Map]s keyed by host;
    [batchExecuting] is the flag of the running batch.  Every handler below is
    the composition of the state updates it queues, applied in order before
    the next event is delivered.  When the page is mounted the maps are empty,
    or [retryTimers] is what was saved in local storage; the theorems hold
    from any state. *)

Record State : Type := {
  retryTimers : gmap string Z;
  retryAttempts : gmap string nat;
  batchExecuting : bool
}.

Definition setRetryTimers (f : gmap string Z -> gmap string Z) (st : State) : State :=
  {| retryTimers := f (retryTimers st);
     retryAttempts := retryAttempts st;
     batchExecuting := batchExecuting st |}.

Definition setRetryAttempts (f : gmap string nat -> gmap string nat) (st : State) : State :=
  {| retryTimers := retryTimers st;
     retryAttempts := f (retryAttempts st);
     batchExecuting := batchExecuting st |}.

Definition setBatchExecuting (b : bool) (st : State) : State :=
  {| retryTimers := retryTimers st;
     retryAttempts := retryAttempts st;
     batchExecuting := b |}.

(** [result.error?.includes('отменено') || result.error?.includes('отменен')] *)
Definition cancelled (r : BatchCommandResult) : bool :=
  opt_includes (error r) "отменено" || opt_includes (error r) "отменен".

(** [prevAttempts.get(result.host) || 0] *)
Definition currentAttempts (st : State) (h : string) : nat :=
  default 0%nat (retryAttempts st !! h).

Section Listener.

Variable toLowerCase : string -> string.

(** The attempt-cap check: [maxAttempts === 0 || currentAttempts < maxAttempts]. *)
Definition underCap (settings : Settings) (st : State) (h : string) : bool :=
  (retryMaxAttempts settings =? 0)%nat ||
  (currentAttempts st h <? retryMaxAttempts settings)%nat.

(** The ['batch-result'] listener; [settings] is what [loadSettings()]
    returns when the event is handled. *)
Definition onBatchResult (settings : Settings) (r : BatchCommandResult) (st : State) : State :=
  if cancelled r || negb (retryFailedHosts settings) then
    setRetryTimers (delete (host r)) st
  else if non_null (error r) then
    if isRetryableError toLowerCase (of_nullable (error r)) then
      if underCap settings st (host r) then
        let st' :=
          if batchExecuting st
          then setRetryTimers (insert (host r) (retryInterval settings)) st
          else st in
        setRetryAttempts (insert (host r) (currentAttempts st (host r) + 1)%nat) st'
      else setRetryTimers (delete (host r)) st
    else setRetryTimers (delete (host r)) st
  else if non_null (result r) then
    setRetryTimers (delete (host r)) st
  else st.

(** The listener reaches [newMap.set(result.host, currentRetryInterval)]:
    a retry countdown is started for the host. *)
Definition schedulesRetry (settings : Settings) (r : BatchCommandResult) (st : State) : bool :=
  negb (cancelled r || negb (retryFailedHosts settings)) &&
  non_null (error r) &&
  isRetryableError toLowerCase (of_nullable (error r)) &&
  underCap settings st (host r) &&
  batchExecuting st.

(** The one-second countdown, installed while timers exist, the batch runs
    and retries are enabled. *)
Definition tick (retryEnabled : bool) (st : State) : State :=
  if (size (retryTimers st) =? 0)%nat || negb (batchExecuting st) || negb retryEnabled
  then st
  else setRetryTimers (fmap (fun timeLeft => if (0 <? timeLeft)%Z then (timeLeft - 1)%Z else timeLeft)) st.

(** [handleCancel], on both of its paths. *)
Definition handleCancel (st : State) : State :=
  setRetryTimers (fun _ => ∅) (setBatchExecuting false st).

(** [cleanupBatchExecution] *)
Definition cleanupBatchExecution (st : State) : State :=
  setRetryTimers (fun _ => ∅) (setBatchExecuting false st).

(** The effect on [retryFailedHosts] when retries are switched off. *)
Definition retryDisabled (st : State) : State :=
  setRetryAttempts (fun _ => ∅) (setRetryTimers (fun _ => ∅) st).

(** [handleBatchExecute] past its checks sets [batchExecuting]; the effect on
    [batchExecuting] then clears the attempt counters.  The effect only runs
    when the flag changes. *)
Definition batchStart (st : State) : State :=
  if batchExecuting st then st
  else setRetryAttempts (fun _ => ∅) (setBatchExecuting true st).

Inductive event : Type :=
| BatchResult (settings : Settings) (r : BatchCommandResult)
| Tick (retryEnabled : bool)
| Cancel
| Cleanup
| RetryDisabled
| BatchStart.

Definition step (ev : event) (st : State) : State :=
  match ev with
  | BatchResult settings r => onBatchResult settings r st
  | Tick retryEnabled => tick retryEnabled st
  | Cancel => handleCancel st
  | Cleanup => cleanupBatchExecution st
  | RetryDisabled => retryDisabled st
  | BatchStart => batchStart st
  end.

Fixpoint run (evs : list event) (st : State) : State :=
  match evs with
  | [] => st
  | ev :: rest => run rest (step ev st)
  end.

(** Whether handling [ev] in state [st] starts a retry countdown for host [h]. *)
Definition scheduledBy (h : string) (ev : event) (st : State) : nat :=
  match ev with
  | BatchResult settings r =>
    if String.eqb (host r) h && schedulesRetry settings r st then 1 else 0
  | _ => 0
  end.

(** How many times a retry countdown is started for host [h] along [evs]. *)
Fixpoint retriesScheduled (h : string) (evs : list event) (st : State) : nat :=
  match evs with
  | [] => 0
  | ev :: rest => (scheduledBy h ev st + retriesScheduled h rest (step ev st))%nat
  end.

(** The event is a result for host [h]. *)
Definition resultFor (h : string) (ev : event) : bool :=
  match ev with
  | BatchResult _ r => String.eqb (host r) h
  | _ => false
  end.

(** The result is a cancellation, or a failure the classifier does not want
    retried. *)
Definition finalFailure (r : BatchCommandResult) : bool :=
  cancelled r ||
  non_null (error r) && negb (isRetryableError toLowerCase (of_nullable (error r))).

(** What may happen between the start of a batch run and the next one, with
    the retry settings left alone: results handled under the cap [cap],
    countdown ticks, cancellation and the final clean-up. *)
Definition duringRun (cap : nat) (ev : event) : bool :=
  match ev with
  | BatchResult settings _ => (retryMaxAttempts settings =? cap)%nat
  | Tick _ => true
  | Cancel => true
  | Cleanup => true
  | RetryDisabled => false
  | BatchStart => false
  end.

End Listener.

End Workspace.

(** ** The batch scheduler of the engine

    The engine behind [execute_batch_commands] is not among the sources;
    its scheduler is modelled from section 4.5 of the specification. *)

Module Scheduler.

(** Modelled from the spec: a worker of the pool is either waiting for work
    or holds the one SSH session of the host it is executing ("one command =
    one session"). *)
Inductive worker : Type :=
| Idle
| Executing (host : string).

(** Modelled from the spec: the outcome a host ends with, as far as the
    scheduler is concerned. *)
Inductive outcome : Type :=
| Finished
| Cancelled.

(** Modelled from the spec: the shared work queue, the worker pool, the
    outcomes emitted so far and the cancellation token. *)
Record pool : Type := {
  pending : list string;
  workers : list worker;
  emitted : list (string * outcome);
  tripped : bool
}.

(** Modelled from the spec: "a worker pool of exactly [max_concurrent]
    independent tasks", all waiting, with every host of the request pending
    in request order. *)
Definition start (hosts : list string) (max_concurrent : nat) : pool :=
  {| pending := hosts;
     workers := replicate max_concurrent Idle;
     emitted := [];
     tripped := false |}.

(** Modelled from the spec: what can happen next.  Workers run in parallel;
    a run of the pool is an interleaving of these atomic actions. *)
Inductive action : Type :=
| Pull (i : nat)
| Complete (i : nat)
| Trip
| DrainPending.

(** Modelled from the spec: worker [i], when idle and not cancelled, pulls
    the next pending host and opens its session; a worker that is executing
    closes its session and emits the outcome ([Cancelled] once the token is
    tripped); tripping the token is idempotent; after cancellation the pending
    hosts are emitted as [Cancelled] without a session.  An action that is not
    enabled leaves the pool as it is. *)
Definition perform (a : action) (p : pool) : pool :=
  match a with
  | Pull i =>
    match workers p !! i, pending p, tripped p with
    | Some Idle, host :: rest, false =>
      {| pending := rest;
         workers := <[i := Executing host]> (workers p);
         emitted := emitted p;
         tripped := tripped p |}
    | _, _, _ => p
    end
  | Complete i =>
    match workers p !! i with
    | Some (Executing host) =>
      {| pending := pending p;
         workers := <[i := Idle]> (workers p);
         emitted := (emitted p ++ [(host, if tripped p then Cancelled else Finished)])%list;
         tripped := tripped p |}
    | _ => p
    end
  | Trip =>
    {| pending := pending p;
       workers := workers p;
       emitted := emitted p;
       tripped := true |}
  | DrainPending =>
    match tripped p, pending p with
    | true, host :: rest =>
      {| pending := rest;
         workers := workers p;
         emitted := (emitted p ++ [(host, Cancelled)])%list;
         tripped := tripped p |}
    | _, _ => p
    end
  end.

(** Modelled from the spec: a run of the pool, one action after the other. *)
Fixpoint perform_all (acts : list action) (p : pool) : pool :=
  match acts with
  | [] => p
  | a :: rest => perform_all rest (perform a p)
  end.

(** Modelled from the spec: the worker holds a session. *)
Definition is_executing (w : worker) : bool :=
  match w with
  | Idle => false
  | Executing _ => true
  end.

(** Modelled from the spec: the number of open SSH sessions, one per
    executing worker. *)
Definition open_sessions (p : pool) : nat :=
  length (List.filter is_executing (workers p)).

End Scheduler.

(** ** Concrete inputs for the examples *)

Module Samples.
Import Validation Types Workspace.

Definition defaultSettings : Settings :=
  {| defaultTimeout := 10;
     maxConcurrent := 50;
     keepAliveInterval := 60;
     reconnectAttempts := 3;
     reconnectDelayBase := 1;
     compressionEnabled := false;
     compressionLevel := 6;
     retryFailedHosts := false;
     retryInterval := 30;
     retryMaxAttempts := 0;
     disableCommandValidation := false |}.

(** Retries enabled, at most two per host. *)
Definition retryTwice : Settings :=
  {| defaultTimeout := 10;
     maxConcurrent := 50;
     keepAliveInterval := 60;
     reconnectAttempts := 3;
     reconnectDelayBase := 1;
     compressionEnabled := false;
     compressionLevel := 6;
     retryFailedHosts := true;
     retryInterval := 30;
     retryMaxAttempts := 2;
     disableCommandValidation := false |}.

Definition passwordConfig : BatchConfig :=
  {| bc_port := 22;
     bc_username := "root";
     bc_auth_method := "password";
     bc_password := Some "secret";
     bc_key_path := None;
     bc_ppk_path := None;
     bc_passphrase := None;
     bc_timeout := 10;
     bc_max_concurrent := 50 |}.

Definition hostAt (address : string) : HostEntry :=
  {| ip := address;
     port := None;
     hostname := None;
     metadata := [];
     group := None;
     color := None;
     tags := None |}.

Definition failure (address message : string) : BatchCommandResult :=
  {| result := None;
     error := Some message;
     host := address;
     timestamp := None |}.

Definition success (address output : string) : BatchCommandResult :=
  {| result := Some {| stdout := output; stderr := ""; exit_status := 0;
                       cr_host := address; vehicle_id := None;
                       cr_timestamp := None; command := None |};
     error := None;
     host := address;
     timestamp := None |}.

Definition idle : State :=
  {| retryTimers := ∅; retryAttempts := ∅; batchExecuting := false |}.

(** A page that has been restored with a countdown and a counter left over
    for 10.0.0.3. *)
Definition restored : State :=
  {| retryTimers := {[ "10.0.0.3" := 12%Z ]};
     retryAttempts := {[ "10.0.0.3" := 5%nat ]};
     batchExecuting := false |}.

Definition loopback6 : SshConfigInput :=
  {| Validation.host := "::1";
     Validation.port := 22;
     username := "root";
     auth_method := "password";
     password := Some "secret";
     key_path := None;
     ppk_path := None;
     passwordMinLength := None |}.

End Samples.

(** ** errorMessages.ts: explanations for the user *)

Module Humanize.
Import Js ErrorMessages.

(** The line feed written [\n] in the source. *)
Definition nl : string := String (ascii_of_nat 10) EmptyString.

Definition connectionTimeoutText : string :=
  "Превышено время ожидания подключения. Проверьте:" ++ nl ++ "• Доступность хоста (ping)" ++
  nl ++ "• Правильность IP-адреса и порта" ++ nl ++ "• Настройки файрвола" ++ nl ++
  "• Настройки таймаута в настройках подключения".

Definition connectionRefusedText : string :=
  "Подключение отклонено. Проверьте:" ++ nl ++ "• SSH сервис запущен на удаленном хосте" ++
  nl ++ "• Правильность порта (обычно 22)" ++ nl ++ "• Настройки файрвола на сервере" ++ nl ++
  "• Доступность хоста в сети".

Definition noRouteText : string :=
  "Хост недоступен. Проверьте:" ++ nl ++ "• Правильность IP-адреса" ++ nl ++
  "• Наличие сетевого подключения" ++ nl ++ "• Настройки маршрутизации".

Definition connectionText (errorStr : string) : string :=
  "Ошибка подключения: " ++ errorStr ++ nl ++ nl ++ "Проверьте:" ++ nl ++
  "• Наличие публичной части ключа на хосте" ++ nl ++ "• Правильность IP-адреса и порта" ++
  nl ++ "• Доступность хоста в сети" ++ nl ++ "• Настройки SSH на сервере".

Definition wrongPasswordText : string :=
  "Ошибка аутентификации: неверный пароль." ++ nl ++ nl ++ "Проверьте:" ++ nl ++
  "• Правильность введенного пароля" ++ nl ++ "• Раскладку клавиатуры (Caps Lock)" ++ nl ++
  "• Настройки пользователя на сервере".

Definition keyAuthText : string :=
  "Ошибка аутентификации по ключу." ++ nl ++ nl ++ "Проверьте:" ++ nl ++
  "• Правильность пути к ключу" ++ nl ++ "• Правильность passphrase (если ключ зашифрован)" ++
  nl ++ "• Разрешения на файл ключа" ++ nl ++ "• Соответствие ключа пользователю на сервере".

Definition authText : string :=
  "Ошибка аутентификации." ++ nl ++ nl ++ "Проверьте:" ++ nl ++
  "• Правильность имени пользователя" ++ nl ++ "• Правильность пароля или ключа" ++ nl ++
  "• Настройки пользователя на сервере".

Definition forbiddenCharactersText : string :=
  "Команда содержит недопустимые символы." ++ nl ++ nl ++
  "Для безопасности запрещено использование:" ++ nl ++
  "• Специальных символов (;, |, &, >, < и т.д.)" ++ nl ++ "• Перенаправления ввода/вывода" ++
  nl ++ "• Переменных окружения" ++ nl ++ nl ++
  "Используйте простые команды без специальных символов.".

Definition dangerousCommandText : string :=
  "Выполнение опасной команды заблокировано." ++ nl ++ nl ++ "Команда может привести к:" ++
  nl ++ "• Потере данных" ++ nl ++ "• Нарушению работы системы" ++ nl ++
  "• Необратимым изменениям" ++ nl ++ nl ++
  "Если вам действительно нужно выполнить эту команду, отключите валидацию в настройках (с осторожностью!).".

Definition validationText (errorStr : string) : string :=
  "Ошибка валидации команды: " ++ errorStr ++ nl ++ nl ++
  "Команда не прошла проверку безопасности.".

Definition keyFileMissingText : string :=
  "Файл ключа не найден." ++ nl ++ nl ++ "Проверьте:" ++ nl ++
  "• Правильность пути к файлу ключа" ++ nl ++ "• Существование файла по указанному пути" ++
  nl ++ "• Разрешения на чтение файла".

Definition fileMissingText (errorStr : string) : string :=
  "Файл не найден: " ++ errorStr ++ nl ++ nl ++ "Проверьте правильность пути к файлу.".

Definition sudoTerminalText : string :=
  "Ошибка выполнения команды с sudo." ++ nl ++ nl ++
  "Проблема: sudo не может запросить пароль без интерактивного терминала." ++ nl ++ nl ++
  "Решения:" ++ nl ++ "1. Используйте sudo -S для передачи пароля через stdin" ++ nl ++
  "2. Настройте NOPASSWD в /etc/sudoers" ++ nl ++ "3. Используйте команду без sudo".

Definition executionText (errorStr : string) : string :=
  "Ошибка выполнения команды: " ++ errorStr.

Definition parseText (errorStr : string) : string :=
  "Ошибка обработки данных: " ++ errorStr ++ nl ++ nl ++ "Проверьте формат данных.".

Definition networkText (errorStr : string) : string :=
  "Ошибка сети: " ++ errorStr ++ nl ++ nl ++ "Проверьте:" ++ nl ++
  "• Наличие интернет-соединения" ++ nl ++ "• Настройки DNS" ++ nl ++
  "• Настройки прокси (если используется)".


(** What [humanizeError] may be handed: a string, an [Error] with its
    [message], or anything else; [asString] is what [String(error)] gives. *)
Inductive thrown : Type :=
| ThrownString (s : string)
| ThrownError (message asString : string)
| ThrownOther (asString : string).

(** [errorStr] *)
Definition errorString (error : thrown) : string :=
  match error with
  | ThrownString s => s
  | ThrownError message asString => if falsy message then asString else message
  | ThrownOther asString => asString
  end.

Definition mentionsKey (errorLower : string) : bool :=
  includes errorLower "key" || includes errorLower "ключ".

Definition mentionsCommandValidation (errorLower : string) : bool :=
  includes errorLower "валидац" || includes errorLower "validation" ||
  includes errorLower "безопасност".

Definition mentionsForbiddenCharacters (errorLower : string) : bool :=
  includes errorLower "недопустимый символ" || includes errorLower "dangerous".

Definition mentionsDangerousVerb (errorLower : string) : bool :=
  includes errorLower "rm" || includes errorLower "dd" || includes errorLower "shutdown".

Definition mentionsFile (errorLower : string) : bool :=
  includes errorLower "file" || includes errorLower "файл" ||
  includes errorLower "not found" || includes errorLower "не найден".

Definition mentionsExecute (errorLower : string) : bool :=
  includes errorLower "execute" || includes errorLower "выполнен".

Definition mentionsSudoTerminal (errorLower : string) : bool :=
  includes errorLower "sudo" && includes errorLower "terminal".

Definition mentionsParse (errorLower : string) : bool :=
  includes errorLower "parse" || includes errorLower "парс".

Definition mentionsNetworkOrDns (errorLower : string) : bool :=
  includes errorLower "network" || includes errorLower "сеть" || includes errorLower "dns".

(** The texts [humanizeError] returns without quoting the message. *)
Definition cannedTexts : list string :=
  [connectionTimeoutText; connectionRefusedText; noRouteText;
   wrongPasswordText; keyAuthText; authText;
   forbiddenCharactersText; dangerousCommandText;
   keyFileMissingText; sudoTerminalText].

Section Humanizer.

(** [String.prototype.toLowerCase]. *)
Variable toLowerCase : string -> string.

Definition humanizeError (error : thrown) : string :=
  let errorStr := errorString error in
  let errorLower := toLowerCase errorStr in
  if mentionsConnection errorLower then
    if mentionsTimeout errorLower then connectionTimeoutText
    else if mentionsRefused errorLower then connectionRefusedText
    else if mentionsNoRoute errorLower then noRouteText
    else connectionText errorStr
  else if mentionsAuthentication errorLower then
    if mentionsPassword errorLower then wrongPasswordText
    else if mentionsKey errorLower then keyAuthText
    else authText
  else if mentionsCommandValidation errorLower then
    if mentionsForbiddenCharacters errorLower then forbiddenCharactersText
    else if mentionsDangerousVerb errorLower then dangerousCommandText
    else validationText errorStr
  else if mentionsFile errorLower then
    if mentionsKey errorLower then keyFileMissingText
    else fileMissingText errorStr
  else if mentionsExecute errorLower then
    if mentionsSudoTerminal errorLower then sudoTerminalText
    else executionText errorStr
  else if mentionsParse errorLower then parseText errorStr
  else if mentionsNetworkOrDns errorLower then networkText errorStr
  else errorStr.

(** None of the seven outer conditions of [humanizeError] holds. *)
Definition unexplained (errorLower : string) : bool :=
  negb (mentionsConnection errorLower || mentionsAuthentication errorLower ||
        mentionsCommandValidation errorLower || mentionsFile errorLower ||
        mentionsExecute errorLower || mentionsParse errorLower ||
        mentionsNetworkOrDns errorLower).

End Humanizer.

End Humanize.

(** ** utils/commandHistory: the command history and its suggestions *)

Module CommandHistory.
Import Js.

Record CommandHistoryItem : Type := {
  command : string;
  timestamp : Z
}.

(** What local storage holds under the history key, parsed: [None] while
    nothing has been saved. *)
Definition storage : Type := option (list CommandHistoryItem).

(** [loadCommandHistory(maxSize?)]; a missing or zero [maxSize] means no
    limit. *)
Definition loadCommandHistory (saved : storage) (maxSize : option nat) : list string :=
  match saved with
  | None => []
  | Some history =>
    let commands := map command history in
    match maxSize with
    | Some (S n) => take (S n) commands
    | _ => commands
    end
  end.

Section History.

(** [String.prototype.trim] and [String.prototype.toLowerCase]. *)
Variable trim : string -> string.
Variable toLowerCase : string -> string.

(** [saveCommandToHistory]: what the storage holds afterwards; [now] is
    [Date.now()]. *)
Definition saveCommandToHistory (now : Z) (cmd : string) (maxSize : nat) (enabled : bool)
    (saved : storage) : storage :=
  if negb enabled || falsy (trim cmd) then saved else
  let history := match saved with Some h => h | None => [] end in
  let history :=
    List.filter (fun item => negb (String.eqb (trim (command item)) (trim cmd))) history in
  let history := {| command := trim cmd; timestamp := now |} :: history in
  let history :=
    if (maxSize <? List.length history)%nat then take maxSize history else history in
  Some history.

(** [x.toLowerCase().includes(lowerInput) && !suggestions.includes(x)] *)
Definition suggests (lowerInput : string) (suggestions : list string) (x : string) : bool :=
  includes (toLowerCase x) lowerInput && negb (existsb (String.eqb x) suggestions).

(** The loop over the favourites. *)
Fixpoint addFavorites (lowerInput : string) (favorites suggestions : list string) : list string :=
  match favorites with
  | [] => suggestions
  | favorite :: rest =>
    addFavorites lowerInput rest
      (if suggests lowerInput suggestions favorite
       then (suggestions ++ [favorite])%list else suggestions)
  end.

(** The loop over the history, which stops once enough suggestions are
    collected. *)
Fixpoint addHistory (lowerInput : string) (maxSuggestions : nat)
    (history suggestions : list string) : list string :=
  match history with
  | [] => suggestions
  | cmd :: rest =>
    let suggestions :=
      if suggests lowerInput suggestions cmd
      then (suggestions ++ [cmd])%list else suggestions in
    if (maxSuggestions <=? List.length suggestions)%nat then suggestions
    else addHistory lowerInput maxSuggestions rest suggestions
  end.

Definition getCommandSuggestions (input : string) (history favorites : list string)
    (maxSuggestions : nat) : list string :=
  if falsy (trim input) then take maxSuggestions favorites else
  let lowerInput := toLowerCase input in
  let suggestions := addFavorites lowerInput favorites [] in
  let suggestions := addHistory lowerInput maxSuggestions history suggestions in
  take maxSuggestions suggestions.

(** The two loops of [autocompleteCommand]. *)
Fixpoint favoriteCandidates (lowerInput : string) (favorites candidates : list string)
    : list string :=
  match favorites with
  | [] => candidates
  | favorite :: rest =>
    favoriteCandidates lowerInput rest
      (if startsWith (toLowerCase favorite) lowerInput
       then (candidates ++ [favorite])%list else candidates)
  end.

Fixpoint historyCandidates (lowerInput : string) (history candidates : list string)
    : list string :=
  match history with
  | [] => candidates
  | cmd :: rest =>
    historyCandidates lowerInput rest
      (if startsWith (toLowerCase cmd) lowerInput &&
          negb (existsb (String.eqb cmd) candidates)
       then (candidates ++ [cmd])%list else candidates)
  end.

(** [autocompleteCommand]; [None] is [null]. *)
Definition autocompleteCommand (input : string) (history favorites : list string)
    : option string :=
  if falsy (trim input) then None else
  let lowerInput := toLowerCase input in
  let candidates := favoriteCandidates lowerInput favorites [] in
  let candidates := historyCandidates lowerInput history candidates in
  match candidates with
  | [] => None
  | first :: _ => Some first
  end.

End History.

End CommandHistory.

(** ** validation.ts: data read back from local storage *)

Module StoredData.
Import Js Json Validation.

(** [Array.isArray(v)] *)
Definition is_array (v : value) : bool :=
  match v with
  | VArray _ => true
  | _ => false
  end.

(** [v.length > 0] for a value known to be a string. *)
Definition non_empty_string (v : value) : bool :=
  match v with
  | VString s => (0 <? Js.length s)%nat
  | _ => false
  end.

(** [lo < v && v <= hi] for a value known to be a number. *)
Definition number_within (lo hi : Q) (v : value) : bool :=
  match v with
  | VNumber n => negb (Qle_bool n lo) && Qle_bool n hi
  | _ => false
  end.

Definition isValidHostEntry (data : value) : bool :=
  String.eqb (typeof data) "object" &&
  negb (is_null data) &&
  String.eqb (typeof (get data "ip")) "string" &&
  non_empty_string (get data "ip") &&
  (is_undefined (get data "port") ||
   String.eqb (typeof (get data "port")) "number" &&
   number_within 0 65535 (get data "port")) &&
  (is_undefined (get data "hostname") ||
   String.eqb (typeof (get data "hostname")) "string") &&
  (is_undefined (get data "metadata") ||
   String.eqb (typeof (get data "metadata")) "object") &&
  (is_undefined (get data "group") || String.eqb (typeof (get data "group")) "string") &&
  (is_undefined (get data "color") || String.eqb (typeof (get data "color")) "string") &&
  (is_undefined (get data "tags") || is_array (get data "tags")).

(** [Array.isArray(data) && data.every(isValidHostEntry)] *)
Definition isValidHostEntryArray (data : value) : bool :=
  match data with
  | VArray items => forallb isValidHostEntry items
  | _ => false
  end.

Section Parsing.

(** [JSON.parse]; [None] when it throws. *)
Variable JSON_parse : string -> option value.

(** [safeJsonParse(jsonString, fallback, validator?)]; the string is [None]
    when the key is absent from local storage. *)
Definition safeJsonParse (jsonString : option string) (fallback : value)
    (validator : option (value -> bool)) : value :=
  match jsonString with
  | None => fallback
  | Some text =>
    if falsy text then fallback else
    match JSON_parse text with
    | None => fallback
    | Some parsed =>
      match validator with
      | Some accepts => if accepts parsed then parsed else fallback
      | None => parsed
      end
    end
  end.

End Parsing.

End StoredData.

(** ** utils/hostsUtils: colours and groups of the host list *)

Module HostsUtils.
Import Js Types.

Definition HOST_COLORS : list string :=
  ["#3b82f6"; "#10b981"; "#f59e0b"; "#ef4444";
   "#8b5cf6"; "#ec4899"; "#06b6d4"; "#84cc16"].

(** The conversion to a signed 32-bit integer that [<<] applies to its
    operand and to its result. *)
Definition toInt32 (z : Z) : Z := ((z + 2 ^ 31) mod 2 ^ 32 - 2 ^ 31)%Z.

(** [hash << 5] *)
Definition shl5 (hash : Z) : Z := toInt32 (toInt32 hash * 32).

(** An optional string used as a condition: [undefined] and [""] are
    falsy. *)
Definition truthy (o : option string) : bool :=
  match o with
  | None => false
  | Some s => negb (falsy s)
  end.

(** [a || b] where [b] is a string. *)
Definition or_else (o : option string) (b : string) : string :=
  match o with
  | Some s => if falsy s then b else s
  | None => b
  end.

Section Colours.

(** [s.charCodeAt(i)] for [i] from 0 to [s.length - 1]. *)
Variable charCodes : string -> list Z.

(** The loop of [getHostColor].  The numbers stay far below 2^53 for any
    group name of realistic size, so the arithmetic is exact. *)
Definition groupHash (name : string) : Z :=
  fold_left (fun hash code => (code + (shl5 hash - hash))%Z) (charCodes name) 0%Z.

(** [getHostColor(host, index)]; [None] would be [undefined]. *)
Definition getHostColor (host : HostEntry) (index : nat) : option string :=
  if truthy (color host) then color host
  else if negb (truthy (group host)) then
    HOST_COLORS !! (index mod List.length HOST_COLORS)%nat
  else
    HOST_COLORS !!
      Z.to_nat (Z.abs (groupHash (or_else (group host) "")) mod
                Z.of_nat (List.length HOST_COLORS)).

End Colours.

(** [settings.hosts], as far as grouping reads it. *)
Record HostSettings : Type := {
  groupByTags : bool;
  defaultGroup : string
}.

(** A [Map<string, HostEntry[]>]: the keys in insertion order, each with
    its array. *)
Definition groups : Type := list (string * list HostEntry).

(** [grouped.has(key)] *)
Definition has (key : string) (grouped : groups) : bool :=
  existsb (fun entry => String.eqb (fst entry) key) grouped.

(** [grouped.get(key)!.push(host)] *)
Fixpoint pushInto (key : string) (host : HostEntry) (grouped : groups) : groups :=
  match grouped with
  | [] => []
  | (k, members) :: rest =>
    if String.eqb k key then (k, (members ++ [host])%list) :: rest
    else (k, members) :: pushInto key host rest
  end.

(** [if (!grouped.has(key)) grouped.set(key, []); grouped.get(key)!.push(host)] *)
Definition addTo (key : string) (host : HostEntry) (grouped : groups) : groups :=
  let grouped := if has key grouped then grouped else (grouped ++ [(key, [])])%list in
  pushInto key host grouped.

Definition groupHosts (settings : HostSettings) (hosts : list HostEntry) : groups :=
  if groupByTags settings then
    fold_left (fun grouped host =>
      match tags host with
      | Some (tag :: more) =>
        fold_left (fun grouped tag => addTo tag host grouped) (tag :: more) grouped
      | _ =>
        addTo (or_else (Some (defaultGroup settings)) "Без тегов") host grouped
      end) hosts []
  else
    fold_left (fun grouped host =>
      addTo (or_else (group host) (or_else (Some (defaultGroup settings)) "default"))
            host grouped) hosts [].

(** [getFlattenedHosts]: pairs of a host and the name of its group. *)
Definition getFlattenedHosts (settings : HostSettings) (hosts : list HostEntry)
    : list (HostEntry * string) :=
  flat_map (fun entry => map (fun host => (host, fst entry)) (snd entry))
           (groupHosts settings hosts).

(** The groups a host belongs to: its tags, or the default group when it has
    none, when grouping by tags; otherwise its own group or the default. *)
Definition groupNames (settings : HostSettings) (host : HostEntry) : list string :=
  if groupByTags settings then
    match tags host with
    | Some (tag :: more) => tag :: more
    | _ => [or_else (Some (defaultGroup settings)) "Без тегов"]
    end
  else [or_else (group host) (or_else (Some (defaultGroup settings)) "default")].

(** Every host paired with each of its groups. *)
Definition memberships (settings : HostSettings) (hosts : list HostEntry)
    : list (HostEntry * string) :=
  flat_map (fun host => map (fun name => (host, name)) (groupNames settings host)) hosts.

End HostsUtils.

(** ** resultsCleanup.ts *)

Module ResultsCleanup.
Import Js.

Section Cleanup.

(** The results are any records with an optional [timestamp]. *)
Variable T : Type.
Variable timestampOf : T -> option string.

(** [new Date(s).getTime()]; [None] for an invalid date. *)
Variable Date_parse : string -> option Z.

(** The filter of [cleanupOldResults]: records without a timestamp stay. *)
Definition recent (cutoffDate : Z) (r : T) : bool :=
  match timestampOf r with
  | None => true
  | Some ts =>
    if falsy ts then true else
    match Date_parse ts with
    | Some resultDate => (cutoffDate <=? resultDate)%Z
    | None => false
    end
  end.

(** [cleanupOldResults(results, retentionDays)]; [now] is the clock, in
    milliseconds. *)
Definition cleanupOldResults (now : Z) (results : list T) (retentionDays : Z) : list T :=
  if (retentionDays <=? 0)%Z then results else
  let cutoffDate := (now - retentionDays * 24 * 60 * 60 * 1000)%Z in
  List.filter (recent cutoffDate) results.

End Cleanup.

End ResultsCleanup.

(** ** pages/Workspace.tsx: the result rows and their statistics *)

Module ResultRows.
Import Js Types Workspace.

(** A [Map<string, BatchCommandResult>]: the keys in insertion order. *)
Definition rows : Type := list (string * BatchCommandResult).

(** [map.set(key, r)]: an existing key keeps its place. *)
Fixpoint set (key : string) (r : BatchCommandResult) (m : rows) : rows :=
  match m with
  | [] => [(key, r)]
  | (k, old) :: rest =>
    if String.eqb k key then (k, r) :: rest
    else (k, old) :: set key r rest
  end.

(** [map.get(key)] *)
Fixpoint find (key : string) (m : rows) : option BatchCommandResult :=
  match m with
  | [] => None
  | (k, r) :: rest => if String.eqb k key then Some r else find key rest
  end.

(** [new Map(entries)] *)
Definition fromEntries (entries : rows) : rows :=
  fold_left (fun m entry => set (fst entry) (snd entry) m) entries [].

(** [queueResultUpdate]: the result, stamped, waits in [pendingResultsRef]. *)
Definition queueResultUpdate (now : string) (r : BatchCommandResult) (pending : rows) : rows :=
  set (host r) (addTimestamp now r) pending.

(** [flushPendingResults]: the new [batchResults]; the queue is emptied. *)
Definition flushPendingResults (pending : rows) (prev : list BatchCommandResult)
    : list BatchCommandResult :=
  match pending with
  | [] => prev
  | _ =>
    let currentMap := fromEntries (map (fun r => (host r, r)) prev) in
    let currentMap :=
      fold_left (fun m entry => set (fst entry) (snd entry) m) pending currentMap in
    map snd currentMap
  end.

(** Every entry is filed under the host of its record. *)
Definition filed (m : rows) : Prop := Forall (fun entry => fst entry = host (snd entry)) m.

(** The last result of [results] that is about host [h]. *)
Definition latest (h : string) (results : list BatchCommandResult) : option BatchCommandResult :=
  find h (rev (map (fun r => (host r, r)) results)).

(** The queue after the results [queued] have arrived, in that order, since
    the last flush. *)
Definition queueAll (now : string) (queued : list BatchCommandResult) : rows :=
  fold_left (fun pending r => queueResultUpdate now r pending) queued [].

(** The counters of the statistics shown above the results. *)
Record Stats : Type := {
  completedResults : list BatchCommandResult;
  batchSuccessCount : nat;
  batchErrorCount : nat;
  batchInProgressCount : nat
}.

(** [r.result !== null && r.result.exit_status === 0] *)
Definition succeeded (r : BatchCommandResult) : bool :=
  match result r with
  | Some c => (exit_status c =? 0)%Z
  | None => false
  end.

(** [hasError || (r.result !== null && r.result.exit_status !== 0)] *)
Definition failed (r : BatchCommandResult) : bool :=
  non_null (error r) ||
  match result r with
  | Some c => negb (exit_status c =? 0)%Z
  | None => false
  end.

(** [isExecuting || isWaitingRetry] *)
Definition inProgress (st : State) (r : BatchCommandResult) : bool :=
  batchExecuting st && negb (non_null (error r)) && negb (non_null (result r)) ||
  bool_decide (is_Some (retryTimers st !! host r)).

(** One turn of the loop over [batchResults]. *)
Definition count (st : State) (acc : Stats) (r : BatchCommandResult) : Stats :=
  if inProgress st r then
    {| completedResults := completedResults acc;
       batchSuccessCount := batchSuccessCount acc;
       batchErrorCount := batchErrorCount acc;
       batchInProgressCount := (batchInProgressCount acc + 1)%nat |}
  else if non_null (result r) || non_null (error r) then
    {| completedResults := (completedResults acc ++ [r])%list;
       batchSuccessCount :=
         (if succeeded r then batchSuccessCount acc + 1 else batchSuccessCount acc)%nat;
       batchErrorCount :=
         (if failed r then batchErrorCount acc + 1 else batchErrorCount acc)%nat;
       batchInProgressCount := batchInProgressCount acc |}
  else acc.

Definition statistics (st : State) (batchResults : list BatchCommandResult) : Stats :=
  fold_left (count st) batchResults
    {| completedResults := []; batchSuccessCount := 0;
       batchErrorCount := 0; batchInProgressCount := 0 |}.

(** [a || b] on numbers: [0] is falsy. *)
Definition Z_or (a b : Z) : Z := if (a =? 0)%Z then b else a.

(** [waves] of [estimatedExecutionTime]:
    [Math.ceil(hosts.length / maxConcurrent)]; [None] stands for the
    [Infinity] a zero divisor gives. *)
Definition waves (hostCount : nat) (batchConfig : BatchConfig) (settings : Settings)
    : option Z :=
  let maxConcurrent := Z_or (bc_max_concurrent batchConfig) (maxConcurrent settings) in
  if (maxConcurrent =? 0)%Z then None
  else Some (- (- Z.of_nat hostCount / maxConcurrent))%Z.

(** [hostsPerWave]: [Math.min(hosts.length, maxConcurrent)] *)
Definition hostsPerWave (hostCount : nat) (batchConfig : BatchConfig) (settings : Settings)
    : Z :=
  Z.min (Z.of_nat hostCount)
        (Z_or (bc_max_concurrent batchConfig) (maxConcurrent settings)).

End ResultRows.

(** ** The settings page: numeric fields *)

Module SettingsPage.

Section Fields.

(** [parseInt(value, 10)]; [None] for [NaN]. *)
Variable parseInt : string -> option Z.

(** [validateNumber(value, min, max, defaultValue)] *)
Definition validateNumber (value : string) (min max defaultValue : Q) : Q :=
  match parseInt value with
  | None => defaultValue
  | Some num => Qmax min (Qmin max (inject_Z num))
  end.

End Fields.

End SettingsPage.

(** ** The batch page: what the theorems say about its events *)

Module BatchPage.
Import Js Types Validation Workspace.

(** The event does not start a countdown from a negative interval. *)
Definition intervalNotNegative (ev : event) : bool :=
  match ev with
  | BatchResult settings _ => (0 <=? retryInterval settings)%Z
  | _ => true
  end.

(** The object [handleBatchExecute] hands to [validateSshConfig];
    [passwordMinLength] is [settings.security.passwordMinLength]. *)
Definition batchValidationInput (batchConfig : BatchConfig) (passwordMinLength : option Z)
    : SshConfigInput :=
  {| Validation.host := "batch";
     Validation.port := bc_port batchConfig;
     username := bc_username batchConfig;
     auth_method := bc_auth_method batchConfig;
     password := bc_password batchConfig;
     key_path := bc_key_path batchConfig;
     ppk_path := bc_ppk_path batchConfig;
     passwordMinLength := passwordMinLength |}.

Section Execute.

Variable trim : string -> string.

(** [handleBatchExecute] as far as the request it sends; [None] when one of
    its three checks shows an error and returns. *)
Definition handleBatchExecute (hosts : list HostEntry) (command : string)
    (batchConfig : BatchConfig) (settings : Settings) (passwordMinLength : option Z)
    : option Json.value :=
  if (List.length hosts =? 0)%nat then None
  else if falsy (trim command) then None
  else if negb (valid (validateSshConfig trim (batchValidationInput batchConfig passwordMinLength)))
  then None
  else Some (batchRequest hosts batchConfig settings command).

End Execute.

End BatchPage.

(** ** Host names and addresses, as the validators read them *)

Module HostNames.
Import Js Regex Validation.

(** A character of the class [[a-zA-Z0-9]]. *)
Definition letterOrDigit (c : ascii) : bool :=
  between "a" "z" c || between "A" "Z" c || between "0" "9" c.

(** A character of the class [[a-zA-Z0-9-]]. *)
Definition labelChar (c : ascii) : bool := letterOrDigit c || Ascii.eqb "-" c.

Fixpoint all_chars (p : ascii -> bool) (s : string) : bool :=
  match s with
  | EmptyString => true
  | String c s' => p c && all_chars p s'
  end.

(** The last character of [String c s]. *)
Fixpoint last_char (c : ascii) (s : string) : ascii :=
  match s with
  | EmptyString => c
  | String d s' => last_char d s'
  end.

(** A label of a host name: one to 63 letters, digits and hyphens, the first
    and the last of them a letter or a digit. *)
Definition isLabel (s : string) : bool :=
  match s with
  | EmptyString => false
  | String c rest =>
    letterOrDigit c && all_chars labelChar rest && letterOrDigit (last_char c rest) &&
    (String.length rest <=? 62)%nat
  end.

(** The address [a.b.c.d] in decimal. *)
Definition dottedQuad (a b c d : N) : string :=
  pretty a ++ "." ++ pretty b ++ "." ++ pretty c ++ "." ++ pretty d.

End HostNames.

(** ** Further concrete inputs for the examples *)

Module MoreSamples.
Import Types CommandHistory HostsUtils.

Definition item (text : string) (at_ : Z) : CommandHistoryItem :=
  {| command := text; timestamp := at_ |}.

Definition savedHistory : storage :=
  Some [item "uptime" 300; item "df -h" 200; item "uname -a" 100].

Definition taggedHost (address : string) (groupName : option string)
    (tagNames : option (list string)) : HostEntry :=
  {| ip := address;
     port := None;
     hostname := None;
     metadata := [];
     group := groupName;
     color := None;
     tags := tagNames |}.

Definition fleet : list HostEntry :=
  [taggedHost "10.0.0.1" (Some "web") (Some ["prod"; "eu"]);
   taggedHost "10.0.0.2" None None;
   taggedHost "10.0.0.3" (Some "web") (Some []);
   taggedHost "10.0.0.4" (Some "db") (Some ["prod"])].

Definition byGroup : HostSettings := {| groupByTags := false; defaultGroup := "default" |}.
Definition byTags : HostSettings := {| groupByTags := true; defaultGroup := "" |}.

(** Stored results with their time stamps, and a clock that reads the
    day of the month out of stamps of the form 2024-05-DD. *)
Definition stamped : list (string * option string) :=
  [("10.0.0.1", Some "2024-05-01"); ("10.0.0.2", None);
   ("10.0.0.3", Some "2024-05-09"); ("10.0.0.4", Some "yesterday");
   ("10.0.0.5", Some "")].

Definition dayClock (stamp : string) : option Z :=
  match stamp with
  | "2024-05-01" => Some (1 * 86400000)%Z
  | "2024-05-09" => Some (9 * 86400000)%Z
  | _ => None
  end.

End MoreSamples.

(** * Properties *)

Import Js ErrorMessages.

(** ** The retry classifier *)

(** [includes] finds exactly the contiguous occurrences. *)
Lemma prefix_spec (p s : string) :
  String.prefix p s = true <-> exists rest, s = (p ++ rest)%string.
Proof.
  revert s. induction p as [|a p IH]; intros [|b s]; simpl.
  - split; [intros _; exists EmptyString; reflexivity|reflexivity].
  - split; [intros _; exists (String b s); reflexivity|reflexivity].
  - split; [discriminate|intros [rest Hrest]; discriminate].
  - destruct (ascii_dec a b) as [->|Hne].
    + rewrite IH. split; intros [rest Hrest]; exists rest.
      * change (String b p ++ rest)%string with (String b (p ++ rest)). congruence.
      * change (String b p ++ rest)%string with (String b (p ++ rest)) in Hrest. congruence.
    + split; [discriminate|]. intros [rest Hrest].
      change (String a p ++ rest)%string with (String a (p ++ rest)) in Hrest. congruence.
Qed.

Lemma includes_spec (s p : string) :
  includes s p = true <-> exists before after, s = (before ++ p ++ after)%string.
Proof.
  induction s as [|a s IH]; cbn [includes]; rewrite orb_true_iff, prefix_spec.
  - split.
    + intros [[rest Hrest]|Hno]; [|discriminate]. exists EmptyString, rest. exact Hrest.
    + intros (before & after & Hs). left. exists after.
      destruct before; [exact Hs|discriminate].
  - rewrite IH. split.
    + intros [[rest Hrest]|(before & after & Hs)].
      * exists EmptyString, rest. exact Hrest.
      * exists (String a before), after. rewrite Hs. reflexivity.
    + intros (before & after & Hs). destruct before as [|b before].
      * left. exists after. exact Hs.
      * right. exists before, after.
        change (String b before ++ p ++ after)%string
          with (String b (before ++ p ++ after)) in Hs. congruence.
Qed.

Section ClassifierFacts.

Variable toLowerCase : string -> string.

Lemma falsy_empty (s : string) : falsy s = true <-> s = "".
Proof. destruct s; simpl; split; congruence. Qed.

(** Decide the remaining conditions of a chain of [if]s one by one. *)
Ltac split_ifs :=
  repeat match goal with
         | |- context [if ?b then _ else _] => destruct b
         end;
  try reflexivity.

(** Every path through the authentication branch answers [false]. *)
Lemma authentication_branch (error : string) :
  mentionsAuthentication (toLowerCase error) = true ->
  isRetryableError toLowerCase (Str error) = false.
Proof.
  intros Hauth. unfold isRetryableError.
  destruct (falsy error); [reflexivity|].
  cbv zeta. rewrite Hauth. split_ifs.
Qed.

Lemma validation_branch (error : string) :
  mentionsValidation (toLowerCase error) = true ->
  isRetryableError toLowerCase (Str error) = false.
Proof.
  intros Hval. unfold isRetryableError.
  destruct (falsy error); [reflexivity|].
  cbv zeta. rewrite Hval. split_ifs.
Qed.

Lemma key_file_branch (error : string) :
  mentionsKeyFile (toLowerCase error) = true ->
  isRetryableError toLowerCase (Str error) = false.
Proof.
  intros Hkey. unfold isRetryableError.
  destruct (falsy error); [reflexivity|].
  cbv zeta. rewrite Hkey. split_ifs.
Qed.

End ClassifierFacts.

(** C10. Without a message there is nothing to retry: for [undefined], for
    [null] and for the empty string [isRetryableError] answers [false],
    whatever the lower-casing does. *)
Theorem absent_error_not_retryable (toLowerCase : string -> string) :
  isRetryableError toLowerCase Undefined = false /\
  isRetryableError toLowerCase Null = false /\
  isRetryableError toLowerCase (Str "") = false.
Proof. repeat split. Qed.

(** C3. A message that, once lower-cased, contains "authentication",
    "аутентификац" or "permission denied" is classified as not worth
    retrying. *)
Theorem auth_denied_not_retryable (toLowerCase : string -> string) (error : string) :
  mentionsAuthentication (toLowerCase error) = true ->
  isRetryableError toLowerCase (Str error) = false.
Proof.
  intros Hauth. unfold isRetryableError.
  destruct (falsy error) eqn:Hfalsy; [reflexivity|].
  cbv zeta. rewrite Hauth.
  destruct (mentionsBadKey (toLowerCase error)); [reflexivity|].
  destruct (mentionsPassword (toLowerCase error)); [reflexivity|].
  destruct (mentionsUser (toLowerCase error)); reflexivity.
Qed.

Lemma auth_denied_not_retryable_witness :
  mentionsAuthentication (ascii_cyrillic_lower "Permission denied (publickey,password)") = true /\
  mentionsAuthentication (ascii_cyrillic_lower "Ошибка АУТЕНТИФИКАЦИИ на хосте") = true /\
  isRetryableError ascii_cyrillic_lower (Str "Permission denied (publickey,password)") = false /\
  isRetryableError ascii_cyrillic_lower (Str "Ошибка АУТЕНТИФИКАЦИИ на хосте") = false.
Proof.
  split; [reflexivity|]. split; [reflexivity|].
  split; apply auth_denied_not_retryable; reflexivity.
Defined.

(** C2, as stated, fails on the empty message: it belongs to no category and
    is still not retried, because [isRetryableError] returns early on a falsy
    argument. *)
Lemma empty_message_not_retryable :
  knownCategory (ascii_cyrillic_lower "") = false /\
  isRetryableError ascii_cyrillic_lower (Str "") = false.
Proof. split; reflexivity. Qed.

(** C2, amended. A non-empty message whose lower-cased text matches none of
    the classifier's phrase lists (authentication, validation, key file,
    format or configuration, connection, network, command execution) is
    retryable. *)
Theorem unknown_message_retryable (toLowerCase : string -> string) (error : string) :
  error <> "" ->
  knownCategory (toLowerCase error) = false ->
  isRetryableError toLowerCase (Str error) = true.
Proof.
  intros Hne Hunknown. unfold knownCategory in Hunknown.
  apply orb_false_iff in Hunknown as [Hunknown Hexecution].
  apply orb_false_iff in Hunknown as [Hunknown Hnetwork].
  apply orb_false_iff in Hunknown as [Hunknown Hconnection].
  apply orb_false_iff in Hunknown as [Hunknown Hformat].
  apply orb_false_iff in Hunknown as [Hunknown Hkeyfile].
  apply orb_false_iff in Hunknown as [Hauth Hvalidation].
  unfold isRetryableError.
  destruct (falsy error) eqn:Hfalsy; [apply falsy_empty in Hfalsy; contradiction|].
  cbv zeta.
  rewrite Hauth, Hvalidation, Hkeyfile, Hformat, Hconnection, Hnetwork, Hexecution.
  reflexivity.
Qed.

Lemma unknown_message_retryable_witness :
  "Host key mismatch" <> "" /\
  knownCategory (ascii_cyrillic_lower "Host key mismatch") = false /\
  isRetryableError ascii_cyrillic_lower (Str "Host key mismatch") = true.
Proof.
  split; [discriminate|]. split; [reflexivity|].
  apply unknown_message_retryable; [discriminate | reflexivity].
Defined.

(** ** Stored records and the batch request *)

Import Json Validation Types Workspace Samples.

Lemma CommandResult_value_valid (r : CommandResult) :
  isValidCommandResult (CommandResult_value r) = true.
Proof. destruct r as [? ? ? ? [?|] [?|] ?]; reflexivity. Qed.

Lemma BatchCommandResult_value_valid (r : BatchCommandResult) :
  isValidBatchCommandResult (BatchCommandResult_value r) = true.
Proof.
  destruct r as [[c|] [e|] h [t|]];
    unfold isValidBatchCommandResult, BatchCommandResult_value, get, lookup_prop;
    simpl; rewrite ?CommandResult_value_valid; reflexivity.
Qed.

Lemma placeholders_pending (now : string) (hosts : list HostEntry) :
  Forall (fun r => result r = None /\ error r = None) (resultsWithTimestamp now hosts).
Proof.
  unfold resultsWithTimestamp, initialResults.
  induction hosts as [|h rest IH]; simpl; constructor; auto.
Qed.

(** C1, as stated, fails on the placeholder that [handleBatchExecute] creates
    for a host before its result arrives: both [result] and [error] are
    [null], and the validator for stored records accepts it.  The validator
    accepts a record with both fields set just as well. *)
Lemma placeholder_valid_with_both_null :
  let r := {| result := None; error := None; host := "10.0.0.1";
              timestamp := Some "2024-05-01T10:00:00.000Z" |} in
  let both := {| result := result (success "10.0.0.1" "ok"); error := Some "late failure";
                 host := "10.0.0.1"; timestamp := None |} in
  resultsWithTimestamp "2024-05-01T10:00:00.000Z" [hostAt "10.0.0.1"] = [r] /\
  isValidBatchCommandResult (BatchCommandResult_value r) = true /\
  get (BatchCommandResult_value r) "result" = VNull /\
  get (BatchCommandResult_value r) "error" = VNull /\
  isValidBatchCommandResult (BatchCommandResult_value both) = true /\
  is_null (get (BatchCommandResult_value both) "result") = false /\
  is_null (get (BatchCommandResult_value both) "error") = false.
Proof. repeat split. Qed.

(** C1, amended. [isValidBatchCommandResult] checks [result] and [error]
    separately, each being [null] or of its type: a record is accepted exactly
    when its four fields pass their own checks, so every record of type
    [BatchCommandResult] is accepted whichever of the two are [null]; and the
    placeholders [handleBatchExecute] creates, one per host, have both
    [null]. *)
Theorem batch_result_fields_checked_separately
    (res err ts : value) (h now : string) (r : BatchCommandResult) (hosts : list HostEntry) :
  isValidBatchCommandResult
    (VObject [("result", res); ("error", err); ("host", VString h); ("timestamp", ts)]) =
    (is_null res || isValidCommandResult res) &&
    (is_null err || String.eqb (typeof err) "string") &&
    (is_undefined ts || String.eqb (typeof ts) "string") /\
  isValidBatchCommandResult (BatchCommandResult_value r) = true /\
  Forall (fun p => result p = None /\ error p = None /\
                   isValidBatchCommandResult (BatchCommandResult_value p) = true)
         (resultsWithTimestamp now hosts).
Proof.
  split; [reflexivity|]. split; [apply BatchCommandResult_value_valid|].
  eapply Forall_impl; [apply placeholders_pending|].
  intros p [Hres Herr]. repeat split; auto using BatchCommandResult_value_valid.
Qed.

(** C6. The request handed to [execute_batch_commands] carries seven fields,
    [hosts], [config_template], [command], [max_concurrent],
    [retry_failed_hosts], [retry_interval] and [skip_validation]; it has no
    [retry_max_attempts], whatever the settings say. *)
Theorem batch_request_omits_retry_max_attempts
    (hosts : list HostEntry) (batchConfig : BatchConfig) (settings : Settings)
    (command : string) :
  forallb (has_key (batchRequest hosts batchConfig settings command))
          ["hosts"; "config_template"; "command"; "max_concurrent";
           "retry_failed_hosts"; "retry_interval"; "skip_validation"] = true /\
  has_key (batchRequest hosts batchConfig settings command) "retry_max_attempts" = false /\
  get (batchRequest hosts batchConfig settings command) "retry_max_attempts" = VUndefined /\
  has_key (batchRequest [hostAt "10.0.0.1"] passwordConfig retryTwice "uptime")
          "retry_max_attempts" = false.
Proof. repeat split. Qed.

(** ** The execution-time estimate *)

Section Estimate.

Local Open Scope Q_scope.

Lemma sumQ_app (l1 l2 : list Q) : sumQ (l1 ++ l2)%list == sumQ l1 + sumQ l2.
Proof.
  induction l1 as [|x l1 IH]; simpl.
  - ring.
  - rewrite IH. ring.
Qed.

Lemma two_power_succ (k : nat) : 2 ^ Z.of_nat (S k) == 2 * 2 ^ Z.of_nat k.
Proof.
  rewrite Nat2Z.inj_succ. unfold Z.succ.
  rewrite Qpower_plus by discriminate. simpl. ring.
Qed.

(** The first [k] delays add up to [base * (2^k - 1)]. *)
Lemma sum_retryDelay (base : Q) (k : nat) :
  sumQ (map (retryDelay base) (seq 1 k)) == base * (2 ^ Z.of_nat k - 1).
Proof.
  induction k as [|k IH].
  - simpl. ring.
  - rewrite seq_S, map_app, sumQ_app, IH. simpl sumQ. unfold retryDelay.
    replace (Z.of_nat (S k) - 1)%Z with (Z.of_nat k) by lia.
    rewrite two_power_succ. ring.
Qed.

Lemma Q_or_nonzero (a b : Q) : ~ a == 0 -> Q_or a b = a.
Proof.
  intros Ha. unfold Q_or. destruct (Qeq_bool a 0) eqn:E; [|reflexivity].
  apply Qeq_bool_eq in E. contradiction.
Qed.

End Estimate.

(** C7, as stated, fails at the default settings: with three attempts and a
    base of one second the estimate accounts for 1 + 2 = 3 seconds of delay,
    not for 2^3 - 1 = 7, and the worst case per host at a ten-second timeout
    is the 33 seconds the settings screen announces. *)
Lemma delaySum_three_attempts :
  (delaySum 3 1 == 3)%Q /\
  ~ (delaySum 3 1 == 1 * (2 ^ 3 - 1))%Q /\
  (worstCasePerHost 10 3 1 == 33)%Q.
Proof. repeat split; try reflexivity. discriminate. Qed.

(** C7, amended. With [n >= 1] attempts and a non-zero base, the delay before
    the [i]-th retry being [base * 2^(i-1)], the estimate accounts for the
    [n - 1] delays that separate [n] attempts: [delaySum] is their sum,
    [base * (2^(n-1) - 1)]. *)
Theorem delaySum_closed_form (n : Z) (base : Q) :
  (1 <= n)%Z ->
  ~ (base == 0)%Q ->
  (delaySum n base == base * (2 ^ (n - 1) - 1))%Q /\
  (delaySum n base == sumQ (map (retryDelay base) (seq 1 (Z.to_nat (n - 1)))))%Q.
Proof.
  intros Hn Hbase.
  assert (Hsum : (delaySum n base == base * (2 ^ (n - 1) - 1))%Q).
  { unfold delaySum. rewrite Q_or_nonzero by assumption.
    destruct (1 <? n)%Z eqn:Hlt; [reflexivity|].
    apply Z.ltb_ge in Hlt. replace n with 1%Z by lia. simpl. ring. }
  split; [exact Hsum|].
  rewrite Hsum, sum_retryDelay, Z2Nat.id by lia. reflexivity.
Qed.

Lemma delaySum_closed_form_witness :
  (1 <= 4)%Z /\ ~ (1 # 2 == 0)%Q /\
  (delaySum 4 (1 # 2) == (1 # 2) * (2 ^ (4 - 1) - 1))%Q /\
  (delaySum 4 (1 # 2) ==
   sumQ (map (retryDelay (1 # 2)) (seq 1 (Z.to_nat (4 - 1)))))%Q.
Proof.
  split; [lia|]. split; [discriminate|].
  apply (delaySum_closed_form 4 (1 # 2)); [lia | discriminate].
Defined.

(** ** Host validation *)

Import Regex.

Section RegexFacts.

(** *** The matcher decides the language *)

Lemma append_empty (s1 s2 : string) :
  (s1 ++ s2)%string = EmptyString -> s1 = EmptyString /\ s2 = EmptyString.
Proof. destruct s1; simpl; [auto|discriminate]. Qed.

Lemma nullable_sound (r : regex) : nullable r = true -> lang r EmptyString.
Proof.
  induction r as [| |p|r1 IH1 r2 IH2|r1 IH1 r2 IH2|r1 IH1]; simpl; intros H;
    try discriminate.
  - constructor.
  - apply andb_true_iff in H as [H1 H2].
    change EmptyString with (EmptyString ++ EmptyString)%string.
    constructor; auto.
  - apply orb_true_iff in H as [H|H]; [apply lang_alt_l|apply lang_alt_r]; auto.
  - constructor.
Qed.

Lemma nullable_complete (r : regex) (s : string) :
  lang r s -> s = EmptyString -> nullable r = true.
Proof.
  induction 1 as [|p c Hc|r1 r2 s1 s2 _ IH1 _ IH2|r1 r2 t _ IH|r1 r2 t _ IH| |r0 s1 s2 _ _ _ _];
    intros Hempty; simpl; try reflexivity.
  - discriminate.
  - apply append_empty in Hempty as [E1 E2]. rewrite IH1, IH2; auto.
  - rewrite IH; auto.
  - rewrite IH by assumption. apply orb_true_r.
Qed.

Lemma lang_cat_inv (r1 r2 : regex) (s : string) :
  lang (Cat r1 r2) s ->
  exists s1 s2, s = (s1 ++ s2)%string /\ lang r1 s1 /\ lang r2 s2.
Proof. inversion 1; subst; eauto. Qed.

Lemma lang_alt_inv (r1 r2 : regex) (s : string) :
  lang (Alt r1 r2) s -> lang r1 s \/ lang r2 s.
Proof. inversion 1; subst; auto. Qed.

Lemma lang_class_inv (p : ascii -> bool) (s : string) :
  lang (Class p) s -> exists c, s = String c EmptyString /\ p c = true.
Proof. inversion 1; subst; eauto. Qed.

Lemma lang_cons_cat (c : ascii) (r1 r2 : regex) (s1 s2 : string) :
  lang r1 (String c s1) -> lang r2 s2 -> lang (Cat r1 r2) (String c (s1 ++ s2)).
Proof.
  intros H1 H2. change (String c (s1 ++ s2)) with (String c s1 ++ s2)%string.
  constructor; assumption.
Qed.

Lemma deriv_sound (c : ascii) (r : regex) :
  forall s, lang (deriv c r) s -> lang r (String c s).
Proof.
  induction r as [| |p|r1 IH1 r2 IH2|r1 IH1 r2 IH2|r1 IH1]; simpl; intros s H.
  - inversion H.
  - inversion H.
  - destruct (p c) eqn:Hc; inversion H; subst. constructor. exact Hc.
  - assert (Hcat : forall t, lang (Cat (deriv c r1) r2) t -> lang (Cat r1 r2) (String c t)).
    { intros t Ht. apply lang_cat_inv in Ht as (s1 & s2 & -> & H1 & H2).
      apply lang_cons_cat; auto. }
    destruct (nullable r1) eqn:Hnull; [|auto].
    apply lang_alt_inv in H as [H|H]; [auto|].
    change (String c s) with (EmptyString ++ String c s)%string.
    constructor; [apply nullable_sound, Hnull|auto].
  - apply lang_alt_inv in H as [H|H]; [apply lang_alt_l|apply lang_alt_r]; auto.
  - apply lang_cat_inv in H as (s1 & s2 & -> & H1 & H2).
    change (String c (s1 ++ s2)) with (String c s1 ++ s2)%string.
    constructor; auto.
Qed.

(** A non-empty member of [r*] starts with a non-empty member of [r]. *)
Lemma star_uncons (r : regex) (c : ascii) (s : string) :
  lang (Star r) (String c s) ->
  exists s1 s2, s = (s1 ++ s2)%string /\ lang r (String c s1) /\ lang (Star r) s2.
Proof.
  intros H. remember (Star r) as R eqn:HR. remember (String c s) as w eqn:Hw.
  revert s Hw.
  induction H as [| | | | | |r0 s1 s2 H1 _ H2 IH2]; intros rest Hw; try discriminate.
  injection HR as ->. destruct s1 as [|a s1].
  - apply IH2; auto.
  - change (String a s1 ++ s2)%string with (String a (s1 ++ s2)) in Hw.
    injection Hw as Ha Hrest. subst a rest. exists s1, s2. auto.
Qed.

Lemma deriv_complete (c : ascii) (r : regex) :
  forall s, lang r (String c s) -> lang (deriv c r) s.
Proof.
  induction r as [| |p|r1 IH1 r2 IH2|r1 IH1 r2 IH2|r1 IH1]; simpl; intros s H.
  - inversion H.
  - inversion H.
  - apply lang_class_inv in H as (a & Ha & Hc). injection Ha as -> ->.
    rewrite Hc. constructor.
  - apply lang_cat_inv in H as (s1 & s2 & Hs & H1 & H2).
    destruct s1 as [|a s1].
    + change (EmptyString ++ s2)%string with s2 in Hs. subst s2.
      rewrite (nullable_complete r1 _ H1 eq_refl).
      apply lang_alt_r. auto.
    + change (String a s1 ++ s2)%string with (String a (s1 ++ s2)) in Hs.
      injection Hs as Ha Hrest. subst a s.
      destruct (nullable r1); [apply lang_alt_l|]; constructor; auto.
  - apply lang_alt_inv in H as [H|H]; [apply lang_alt_l|apply lang_alt_r]; auto.
  - apply star_uncons in H as (s1 & s2 & -> & H1 & H2). constructor; auto.
Qed.

(** [test] answers [true] exactly on the members of the language. *)
Lemma test_lang (s : string) : forall r, test r s = true <-> lang r s.
Proof.
  induction s as [|c s IH]; intros r; simpl.
  - split; [apply nullable_sound|]. intros H. eapply nullable_complete; eauto.
  - rewrite IH. split; [apply deriv_sound|apply deriv_complete].
Qed.

(** *** Characters a pattern cannot match *)

Lemma void_not_nullable (r : regex) : is_void r = true -> nullable r = false.
Proof.
  induction r as [| |p|r1 IH1 r2 IH2|r1 IH1 r2 IH2|r1 IH1];
    simpl; try discriminate; try reflexivity.
  - intros H. apply orb_true_iff in H as [H|H].
    + rewrite (IH1 H). reflexivity.
    + rewrite (IH2 H). apply andb_false_r.
  - intros H. apply andb_true_iff in H as [H1 H2].
    rewrite (IH1 H1), (IH2 H2). reflexivity.
Qed.

Lemma void_deriv (c : ascii) (r : regex) :
  is_void r = true -> is_void (deriv c r) = true.
Proof.
  induction r as [| |p|r1 IH1 r2 IH2|r1 IH1 r2 IH2|r1 IH1];
    simpl; try discriminate; try reflexivity.
  - intros H. destruct (is_void r1) eqn:Hv1.
    + rewrite (void_not_nullable r1 Hv1). simpl. rewrite IH1; reflexivity.
    + simpl in H. destruct (nullable r1); simpl; rewrite H, ?IH2 by assumption;
        rewrite ?orb_true_r; reflexivity.
  - intros H. apply andb_true_iff in H as [H1 H2].
    rewrite (IH1 H1), (IH2 H2). reflexivity.
Qed.

(** An empty language has no member. *)
Lemma void_rejects (s : string) : forall r, is_void r = true -> test r s = false.
Proof.
  induction s as [|c s IH]; intros r Hvoid; simpl.
  - apply void_not_nullable, Hvoid.
  - apply IH, void_deriv, Hvoid.
Qed.

(** A character no class of [r] contains kills [r]. *)
Lemma outside_alphabet (c : ascii) (r : regex) :
  in_alphabet r c = false -> is_void (deriv c r) = true.
Proof.
  induction r as [| |p|r1 IH1 r2 IH2|r1 IH1 r2 IH2|r1 IH1];
    simpl; try reflexivity.
  - intros H. rewrite H. reflexivity.
  - intros H. apply orb_false_iff in H as [H1 H2].
    destruct (nullable r1); simpl; rewrite (IH1 H1), ?(IH2 H2); reflexivity.
  - intros H. apply orb_false_iff in H as [H1 H2].
    rewrite (IH1 H1), (IH2 H2). reflexivity.
  - intros H. rewrite (IH1 H). reflexivity.
Qed.

(** Derivatives mention no new character. *)
Lemma deriv_alphabet (c d : ascii) (r : regex) :
  in_alphabet (deriv c r) d = true -> in_alphabet r d = true.
Proof.
  induction r as [| |p|r1 IH1 r2 IH2|r1 IH1 r2 IH2|r1 IH1];
    simpl; try discriminate.
  - destruct (p c); simpl; discriminate.
  - destruct (nullable r1); simpl; rewrite ?orb_true_iff; intuition auto.
  - rewrite !orb_true_iff. intuition auto.
  - rewrite orb_true_iff. intuition auto.
Qed.

(** A string that matches is written in the pattern's alphabet. *)
Lemma test_alphabet (s : string) :
  forall r, test r s = true ->
  forall c, In c (list_ascii_of_string s) -> in_alphabet r c = true.
Proof.
  induction s as [|a s IH]; intros r Hmatch c Hin; simpl in *; [contradiction|].
  destruct Hin as [->|Hin].
  - destruct (in_alphabet r c) eqn:Hc; [reflexivity|].
    rewrite (void_rejects s _ (outside_alphabet c r Hc)) in Hmatch. discriminate.
  - eapply deriv_alphabet, IH; eassumption.
Qed.

Lemma includes_char (c : ascii) (s : string) :
  includes s (String c EmptyString) = true -> In c (list_ascii_of_string s).
Proof.
  induction s as [|a s IH]; simpl; [discriminate|].
  destruct (Ascii.eqb_spec c a) as [->|Hne].
  - intros _. left. reflexivity.
  - intros H. right. apply IH. destruct (ascii_dec c a); [contradiction|exact H].
Qed.

Lemma foreign_char_rejected (c : ascii) (r : regex) (s : string) :
  in_alphabet r c = false ->
  includes s (String c EmptyString) = true ->
  test r s = false.
Proof.
  intros Hout Hin. destruct (test r s) eqn:Hmatch; [|reflexivity].
  rewrite (test_alphabet s r Hmatch c (includes_char c s Hin)) in Hout. discriminate.
Qed.

End RegexFacts.

Section HostFacts.

Variable trim : string -> string.

Lemma colon_fails_validateIp (host : string) :
  includes host ":" = true -> validateIp host = false.
Proof.
  intros Hcolon. unfold validateIp.
  rewrite (foreign_char_rejected ":" ipRegex host); [reflexivity|reflexivity|exact Hcolon].
Qed.

Lemma colon_fails_validateHostname (host : string) :
  includes host ":" = true -> validateHostname host = false.
Proof.
  intros Hcolon. unfold validateHostname.
  rewrite (foreign_char_rejected ":" hostnameRegex host); [|reflexivity|exact Hcolon].
  destruct (_ || _); reflexivity.
Qed.

End HostFacts.

(** What the validation does accept. *)
Example dotted_quad_accepted :
  validateIp "192.168.1.10" = true /\ validateIp "256.1.1.1" = false /\
  validateIp "10.01.0.1" = false.
Proof. repeat split. Qed.

Example dns_name_accepted :
  validateHostname "db-01.example.com" = true /\ validateHostname "-db.example.com" = false.
Proof. repeat split. Qed.

(** C8, as stated, fails on the IPv6 loopback address: neither [validateIp]
    nor [validateHostname] accepts "::1", and [validateSshConfig] reports the
    host as malformed. *)
Lemma ipv6_loopback_rejected :
  validateIp "::1" = false /\
  validateHostname "::1" = false /\
  validateSshConfig ascii_trim loopback6 =
    {| valid := false; errors := [hostError] |}.
Proof. repeat split. Qed.

(** C8, amended. Host validation knows dotted IPv4 addresses and DNS names
    only: a host that contains a colon, as every IPv6 literal does, is
    rejected by [validateIp] and by [validateHostname], and
    [validateSshConfig] reports it with the malformed-host error. *)
Theorem colon_hosts_rejected (trim : string -> string) (config : SshConfigInput) :
  includes (Validation.host config) ":" = true ->
  validateIp (Validation.host config) = false /\
  validateHostname (Validation.host config) = false /\
  In hostError (errors (validateSshConfig trim config)) /\
  valid (validateSshConfig trim config) = false.
Proof.
  intros Hcolon.
  pose proof (colon_fails_validateIp _ Hcolon) as Hip.
  pose proof (colon_fails_validateHostname _ Hcolon) as Hname.
  split; [exact Hip|]. split; [exact Hname|].
  assert (Hfalsy : falsy (Validation.host config) = false).
  { destruct (Validation.host config); [discriminate Hcolon|reflexivity]. }
  assert (Hbatch : String.eqb (Validation.host config) "batch" = false).
  { destruct (String.eqb_spec (Validation.host config) "batch") as [E|]; [|reflexivity].
    rewrite E in Hcolon. discriminate Hcolon. }
  unfold validateSshConfig. rewrite Hfalsy, Hbatch, Hip, Hname.
  change (false || false) with false. change (negb false && negb false) with true.
  cbv zeta iota beta. unfold push.
  repeat match goal with
         | |- context [if ?b then _ else _] => destruct b
         | |- context [match ?o with Some _ => _ | None => _ end] => destruct o
         end;
    simpl; auto.
Qed.

Lemma colon_hosts_rejected_witness :
  includes (Validation.host loopback6) ":" = true /\
  validateIp (Validation.host loopback6) = false /\
  validateHostname (Validation.host loopback6) = false /\
  In hostError (errors (validateSshConfig ascii_trim loopback6)) /\
  valid (validateSshConfig ascii_trim loopback6) = false.
Proof.
  split; [reflexivity|].
  apply (colon_hosts_rejected ascii_trim loopback6). reflexivity.
Defined.

(** ** Retry bookkeeping of the batch page *)

Section ListenerFacts.

Variable toLowerCase : string -> string.

Local Abbreviation onBatchResult := (onBatchResult toLowerCase).
Local Abbreviation schedulesRetry := (schedulesRetry toLowerCase).
Local Abbreviation step := (step toLowerCase).
Local Abbreviation run := (run toLowerCase).
Local Abbreviation retriesScheduled := (retriesScheduled toLowerCase).
Local Abbreviation scheduledBy := (scheduledBy toLowerCase).
Local Abbreviation finalFailure := (finalFailure toLowerCase).

(** A cancellation or a failure that is not retryable removes the host's
    countdown. *)
Lemma final_failure_clears (settings : Settings) (r : BatchCommandResult) (st : State) :
  finalFailure r = true ->
  retryTimers (onBatchResult settings r st) !! host r = None.
Proof.
  unfold Workspace.finalFailure, Workspace.onBatchResult. intros Hfinal.
  destruct (cancelled r); simpl in *; [apply lookup_delete_eq|].
  apply andb_true_iff in Hfinal as [Herr Hno]. apply negb_true_iff in Hno.
  rewrite Herr, Hno.
  destruct (negb (retryFailedHosts settings)); simpl; apply lookup_delete_eq.
Qed.

(** Failures whose message names an authentication, validation or key-file
    problem are among those the listener treats as final. *)
Lemma classified_failure_is_final (r : BatchCommandResult) (e : string) :
  error r = Some e ->
  mentionsAuthentication (toLowerCase e) || mentionsValidation (toLowerCase e) ||
  mentionsKeyFile (toLowerCase e) = true ->
  finalFailure r = true.
Proof.
  intros He Hclass. unfold Workspace.finalFailure. rewrite He. simpl.
  apply orb_true_iff. right. apply negb_true_iff.
  apply orb_true_iff in Hclass as [Hclass|Hkey];
    [apply orb_true_iff in Hclass as [Hauth|Hval]|].
  - apply authentication_branch, Hauth.
  - apply validation_branch, Hval.
  - apply key_file_branch, Hkey.
Qed.

(** What happens to other hosts, the countdown, cancellation, clean-up and
    the start of a batch never create a countdown for [h]. *)
Lemma step_keeps_absent (h : string) (ev : event) (st : State) :
  resultFor h ev = false ->
  retryTimers st !! h = None ->
  retryTimers (step ev st) !! h = None.
Proof.
  intros Hother Habsent. destruct ev as [settings r|enabled| | | |]; simpl.
  - simpl in Hother. apply String.eqb_neq in Hother.
    unfold Workspace.onBatchResult.
    repeat match goal with
           | |- context [if ?b then _ else _] => destruct b
           end;
      simpl; rewrite ?lookup_delete_ne, ?lookup_insert_ne by assumption; assumption.
  - unfold tick. destruct (_ || _); simpl; [assumption|].
    rewrite lookup_fmap, Habsent. reflexivity.
  - apply lookup_empty.
  - apply lookup_empty.
  - apply lookup_empty.
  - unfold batchStart. destruct (batchExecuting st); simpl; assumption.
Qed.

Lemma run_keeps_absent (h : string) (evs : list event) :
  forall st,
  forallb (fun ev => negb (resultFor h ev)) evs = true ->
  retryTimers st !! h = None ->
  retryTimers (run evs st) !! h = None.
Proof.
  induction evs as [|ev evs IH]; intros st Hevs Habsent; simpl in *; [assumption|].
  apply andb_true_iff in Hevs as [Hev Hevs]. apply negb_true_iff in Hev.
  apply IH; [assumption|]. apply step_keeps_absent; assumption.
Qed.

(** Handling one event of a run moves the counter of [h] up by at least what
    it schedules, and never past the cap. *)
Lemma step_attempts (cap : nat) (h : string) (ev : event) (st : State) :
  duringRun cap ev = true ->
  cap <> 0%nat ->
  (currentAttempts st h <= cap)%nat ->
  (scheduledBy h ev st + currentAttempts st h <= currentAttempts (step ev st) h)%nat /\
  (currentAttempts (step ev st) h <= cap)%nat.
Proof.
  intros Hrun Hcap Hle. destruct ev as [settings r|enabled| | | |]; simpl in *;
    try discriminate.
  2:{ unfold tick, currentAttempts in *. destruct (_ || _); simpl; lia. }
  2:{ unfold currentAttempts in *. simpl. lia. }
  2:{ unfold currentAttempts in *. simpl. lia. }
  apply Nat.eqb_eq in Hrun.
  unfold Workspace.onBatchResult, Workspace.schedulesRetry.
  destruct (cancelled r || negb (retryFailedHosts settings)); simpl;
    [rewrite andb_false_r; unfold currentAttempts in *; simpl; lia|].
  destruct (non_null (error r)); simpl.
  2:{ rewrite andb_false_r. destruct (non_null (result r)); unfold currentAttempts in *; simpl; lia. }
  destruct (isRetryableError toLowerCase (of_nullable (error r))); simpl.
  2:{ rewrite andb_false_r. unfold currentAttempts in *; simpl; lia. }
  destruct (underCap settings st (host r)) eqn:Hunder; simpl.
  2:{ rewrite andb_false_r. unfold currentAttempts in *; simpl; lia. }
  unfold underCap in Hunder. rewrite Hrun in Hunder.
  apply orb_true_iff in Hunder as [Hzero|Hlt];
    [apply Nat.eqb_eq in Hzero; contradiction|]. apply Nat.ltb_lt in Hlt.
  assert (Hatt : forall st', retryAttempts st' = retryAttempts st ->
            currentAttempts
              (setRetryAttempts (insert (host r) (currentAttempts st (host r) + 1)%nat) st') h =
            if String.eqb (host r) h then (currentAttempts st h + 1)%nat
            else currentAttempts st h).
  { intros st' Hsame. unfold currentAttempts. simpl. rewrite Hsame.
    destruct (String.eqb_spec (host r) h) as [->|Hne].
    - rewrite lookup_insert_eq. reflexivity.
    - rewrite lookup_insert_ne by assumption. reflexivity. }
  rewrite Hatt by (destruct (batchExecuting st); reflexivity).
  destruct (String.eqb_spec (host r) h) as [Heq|Hne]; simpl.
  - rewrite Heq in Hlt. destruct (batchExecuting st); simpl; lia.
  - lia.
Qed.

Lemma retries_within_cap (cap : nat) (h : string) (evs : list event) :
  forall st,
  forallb (duringRun cap) evs = true ->
  cap <> 0%nat ->
  (currentAttempts st h <= cap)%nat ->
  (retriesScheduled h evs st + currentAttempts st h <= cap)%nat.
Proof.
  induction evs as [|ev evs IH]; intros st Hevs Hcap Hle; simpl in *; [lia|].
  apply andb_true_iff in Hevs as [Hev Hevs].
  destruct (step_attempts cap h ev st Hev Hcap Hle) as [Hup Hbound].
  specialize (IH (step ev st) Hevs Hcap Hbound). lia.
Qed.

Lemma schedulesRetry_under_cap (settings : Settings) (r : BatchCommandResult) (st : State) :
  schedulesRetry settings r st = true ->
  retryMaxAttempts settings = 0%nat \/
  (currentAttempts st (host r) < retryMaxAttempts settings)%nat.
Proof.
  unfold Workspace.schedulesRetry, underCap. intros H.
  apply andb_true_iff in H as [H _]. apply andb_true_iff in H as [_ H].
  apply orb_true_iff in H as [H|H].
  - left. apply Nat.eqb_eq, H.
  - right. apply Nat.ltb_lt, H.
Qed.

Lemma batchStart_resets (st : State) :
  batchExecuting st = false ->
  retryAttempts (batchStart st) = ∅ /\ batchExecuting (batchStart st) = true.
Proof. intros Hidle. unfold batchStart. rewrite Hidle. split; reflexivity. Qed.

End ListenerFacts.





(** ** The scheduler *)

Import Scheduler.

Lemma perform_keeps_pool_size (a : action) (p : pool) :
  List.length (workers (perform a p)) = List.length (workers p).
Proof.
  destruct a as [i|i| |]; simpl.
  - destruct (workers p !! i) as [[|host]|]; try reflexivity.
    destruct (pending p) as [|host rest]; try reflexivity.
    destruct (tripped p); simpl; [reflexivity|apply length_insert].
  - destruct (workers p !! i) as [[|host]|]; simpl; try reflexivity.
    apply length_insert.
  - reflexivity.
  - destruct (tripped p), (pending p); reflexivity.
Qed.

Lemma perform_all_keeps_pool_size (acts : list action) :
  forall p, List.length (workers (perform_all acts p)) = List.length (workers p).
Proof.
  induction acts as [|a acts IH]; intros p; simpl; [reflexivity|].
  rewrite IH. apply perform_keeps_pool_size.
Qed.

Lemma open_sessions_pool_size (p : pool) :
  (open_sessions p <= List.length (workers p))%nat.
Proof. apply List.filter_length_le. Qed.

(** The pool does fill up: three hosts on two workers keep two sessions open. *)
Example two_workers_two_sessions :
  open_sessions (perform_all [Pull 0; Pull 1; Pull 0; Complete 5]
                             (start ["10.0.0.1"; "10.0.0.2"; "10.0.0.3"] 2)) = 2%nat.
Proof. reflexivity. Qed.


(** * Further properties of the sources *)

(** ** errorMessages.ts *)

Import Humanize.

(** X1. A message that none of the seven tests of [humanizeError]
    recognises is shown to the user as it is. *)
Theorem unexplained_error_unchanged (toLowerCase : string -> string) (error : thrown) :
  unexplained (toLowerCase (errorString error)) = true ->
  humanizeError toLowerCase error = errorString error.
Proof.
  unfold unexplained, humanizeError. intros H. cbv zeta.
  apply negb_true_iff in H.
  do 6 (apply orb_false_iff in H; let H' := fresh "H" in destruct H as [H H']).
  repeat match goal with E : _ = false |- _ => rewrite E; clear E end.
  reflexivity.
Qed.

Lemma unexplained_error_unchanged_witness :
  unexplained (ascii_cyrillic_lower (errorString (ThrownError "" "Host key mismatch"))) = true /\
  humanizeError ascii_cyrillic_lower (ThrownError "" "Host key mismatch") = "Host key mismatch".
Proof.
  split; [reflexivity|].
  apply (unexplained_error_unchanged ascii_cyrillic_lower (ThrownError "" "Host key mismatch")).
  reflexivity.
Defined.

Lemma append_empty_r (s : string) : (s ++ "")%string = s.
Proof.
  induction s as [|a s IH]; [reflexivity|].
  change (String a s ++ "")%string with (String a (s ++ "")). rewrite IH. reflexivity.
Qed.

Lemma includes_middle (before s after : string) :
  includes (before ++ s ++ after)%string s = true.
Proof. apply includes_spec. exists before, after. reflexivity. Qed.

Lemma includes_end (before s : string) : includes (before ++ s)%string s = true.
Proof.
  apply includes_spec. exists before, EmptyString. rewrite append_empty_r. reflexivity.
Qed.

Lemma includes_self (s : string) : includes s s = true.
Proof.
  apply includes_spec. exists EmptyString, EmptyString.
  rewrite append_empty_r. reflexivity.
Qed.

(** X2. Whatever [humanizeError] is given, its answer is one of the ten
    fixed explanations or contains the original message word for word. *)
Theorem explanation_canned_or_quoting (toLowerCase : string -> string) (error : thrown) :
  In (humanizeError toLowerCase error) cannedTexts \/
  includes (humanizeError toLowerCase error) (errorString error) = true.
Proof.
  unfold humanizeError. cbv zeta.
  repeat match goal with
         | |- context [if ?b then _ else _] => destruct b
         end;
    first
      [ solve [left; unfold cannedTexts; repeat first [apply in_eq | apply in_cons]]
      | solve [right; apply includes_self]
      | solve [right;
               cbv beta delta [connectionText validationText fileMissingText
                          executionText parseText networkText];
               first [apply includes_middle | apply includes_end]] ].
Qed.

(** ** The command history *)

Import CommandHistory MoreSamples.

Lemma filter_sublist {A : Type} (f : A -> bool) (l : list A) :
  sublist (List.filter f l) l.
Proof.
  induction l as [|x l IH]; simpl; [constructor|].
  destruct (f x); [apply sublist_skip|apply sublist_cons]; exact IH.
Qed.

Lemma filter_Forall {A : Type} (f : A -> bool) (l : list A) :
  Forall (fun x => f x = true) (List.filter f l).
Proof.
  induction l as [|x l IH]; simpl; [constructor|].
  destruct (f x) eqn:E; [constructor; assumption|assumption].
Qed.

Lemma existsb_eqb_false (x : string) (l : list string) :
  existsb (String.eqb x) l = false -> ~ In x l.
Proof.
  induction l as [|y l IH]; simpl; [tauto|].
  intros H. apply orb_false_iff in H as [Hxy Hl].
  apply String.eqb_neq in Hxy. intros [->|Hin]; [congruence|]. exact (IH Hl Hin).
Qed.

Lemma existsb_eqb_true (x : string) (l : list string) :
  existsb (String.eqb x) l = true -> In x l.
Proof.
  induction l as [|y l IH]; simpl; [discriminate|].
  intros H. apply orb_true_iff in H as [Hxy|Hl].
  - left. symmetry. apply String.eqb_eq, Hxy.
  - right. exact (IH Hl).
Qed.

(** What the storage holds after a command has been saved. *)
Lemma saved_history_shape (trim : string -> string) (now : Z) (cmd : string)
    (maxSize : nat) (saved : storage) :
  falsy (trim cmd) = false ->
  (1 <= maxSize)%nat ->
  saveCommandToHistory trim now cmd maxSize true saved =
  Some ({| command := trim cmd; timestamp := now |} ::
        take (Nat.pred maxSize)
             (List.filter (fun item => negb (String.eqb (trim (command item)) (trim cmd)))
                          (default [] saved))).
Proof.
  intros Hcmd Hmax. unfold saveCommandToHistory. rewrite Hcmd. simpl negb. cbv zeta.
  cbn [orb].
  set (kept := List.filter _ (match saved with Some h => h | None => [] end)).
  replace (default [] saved) with (match saved with Some h => h | None => [] end)
    by (destruct saved; reflexivity).
  fold kept. f_equal.
  destruct (maxSize <? List.length (_ :: kept))%nat eqn:Hlen.
  - destruct maxSize as [|n]; [lia|]. reflexivity.
  - apply Nat.ltb_ge in Hlen. simpl in Hlen.
    rewrite take_ge by lia. reflexivity.
Qed.

(** X3. Saving a non-blank command puts its trimmed text first, removes
    every older entry that equals it up to trimming, keeps the other entries
    in their order and never lets the history grow beyond [maxSize]. *)
Theorem saved_command_first (trim : string -> string) (now : Z) (cmd : string)
    (maxSize : nat) (saved : storage) :
  falsy (trim cmd) = false ->
  (1 <= maxSize)%nat ->
  exists rest,
    saveCommandToHistory trim now cmd maxSize true saved =
      Some ({| command := trim cmd; timestamp := now |} :: rest) /\
    Forall (fun item => trim (command item) <> trim cmd) rest /\
    sublist rest (default [] saved) /\
    (List.length rest < maxSize)%nat.
Proof.
  intros Hcmd Hmax. eexists. split; [apply saved_history_shape; assumption|].
  split; [|split].
  - apply Forall_take. eapply Forall_impl; [apply filter_Forall|].
    intros item Hitem. apply negb_true_iff, String.eqb_neq in Hitem. exact Hitem.
  - etransitivity; [apply sublist_take|apply filter_sublist].
  - rewrite length_take. lia.
Qed.

Lemma saved_command_first_witness :
  exists rest,
    saveCommandToHistory ascii_trim 400 "  df -h " 3 true savedHistory =
      Some ({| command := ascii_trim "  df -h "; timestamp := 400 |} :: rest) /\
    Forall (fun item => ascii_trim (command item) <> ascii_trim "  df -h ") rest /\
    sublist rest (default [] savedHistory) /\
    (List.length rest < 3)%nat.
Proof.
  apply (saved_command_first ascii_trim 400 "  df -h " 3 savedHistory); [reflexivity|lia].
Defined.

(** X4. After a command has been saved, loading the history with the same
    limit returns the trimmed command first and at most [maxSize] commands. *)
Theorem load_after_save (trim : string -> string) (now : Z) (cmd : string)
    (maxSize : nat) (saved : storage) :
  falsy (trim cmd) = false ->
  (1 <= maxSize)%nat ->
  let history :=
    loadCommandHistory (saveCommandToHistory trim now cmd maxSize true saved)
                       (Some maxSize) in
  head history = Some (trim cmd) /\ (List.length history <= maxSize)%nat.
Proof.
  intros Hcmd Hmax. cbv zeta.
  rewrite (saved_history_shape trim now cmd maxSize saved Hcmd Hmax).
  unfold loadCommandHistory. destruct maxSize as [|n]; [lia|].
  split; [reflexivity|]. rewrite length_take. lia.
Qed.

Lemma load_after_save_witness :
  let history :=
    loadCommandHistory (saveCommandToHistory ascii_trim 400 "  df -h " 3 true savedHistory)
                       (Some 3%nat) in
  history = ["df -h"; "uptime"; "uname -a"] /\
  head history = Some (ascii_trim "  df -h ") /\ (List.length history <= 3)%nat.
Proof.
  split; [reflexivity|].
  apply (load_after_save ascii_trim 400 "  df -h " 3 savedHistory); [reflexivity|lia].
Defined.

Section SuggestionFacts.

Variable toLowerCase : string -> string.
Variable lowerInput : string.
Variables history favorites : list string.

(** A suggestion comes from the favourites or the history and contains the
    input. *)
Let relevant (s : string) : Prop :=
  (In s favorites \/ In s history) /\ includes (toLowerCase s) lowerInput = true.

Lemma suggestion_added (suggestions : list string) (x : string) :
  In x favorites \/ In x history ->
  NoDup suggestions -> Forall relevant suggestions ->
  let suggestions' :=
    if suggests toLowerCase lowerInput suggestions x
    then (suggestions ++ [x])%list else suggestions in
  NoDup suggestions' /\ Forall relevant suggestions'.
Proof.
  intros Hx Hnodup Hrel. cbv zeta. unfold suggests.
  destruct (includes (toLowerCase x) lowerInput) eqn:Hinc; simpl; [|auto].
  destruct (existsb (String.eqb x) suggestions) eqn:Hin; simpl; [auto|].
  apply existsb_eqb_false in Hin. split.
  - apply NoDup_app. split; [assumption|]. split; [|apply NoDup_singleton].
    intros y Hy Hy'. apply list_elem_of_singleton in Hy'. subst y.
    apply Hin, list_elem_of_In, Hy.
  - apply Forall_app. split; [assumption|]. constructor; [|constructor].
    split; assumption.
Qed.

Lemma addFavorites_relevant (favs : list string) :
  forall suggestions,
  (forall x, In x favs -> In x favorites) ->
  NoDup suggestions -> Forall relevant suggestions ->
  NoDup (addFavorites toLowerCase lowerInput favs suggestions) /\
  Forall relevant (addFavorites toLowerCase lowerInput favs suggestions).
Proof.
  induction favs as [|x favs IH]; intros suggestions Hsub Hnodup Hrel; simpl; [auto|].
  destruct (suggestion_added suggestions x) as [Hn Hr]; auto.
  { left. apply Hsub. left. reflexivity. }
  apply IH; auto. intros y Hy. apply Hsub. right. exact Hy.
Qed.

Lemma addHistory_relevant (maxSuggestions : nat) (hist : list string) :
  forall suggestions,
  (forall x, In x hist -> In x history) ->
  NoDup suggestions -> Forall relevant suggestions ->
  NoDup (addHistory toLowerCase lowerInput maxSuggestions hist suggestions) /\
  Forall relevant (addHistory toLowerCase lowerInput maxSuggestions hist suggestions).
Proof.
  induction hist as [|x hist IH]; intros suggestions Hsub Hnodup Hrel; simpl; [auto|].
  destruct (suggestion_added suggestions x) as [Hn Hr]; auto.
  { right. apply Hsub. left. reflexivity. }
  cbv zeta in Hn, Hr.
  destruct (maxSuggestions <=? _)%nat; [auto|].
  apply IH; auto. intros y Hy. apply Hsub. right. exact Hy.
Qed.

End SuggestionFacts.

(** X5. For a non-blank input, [getCommandSuggestions] returns at most
    [maxSuggestions] commands, none of them twice, each taken from the
    favourites or the history and containing the input when both are
    lower-cased. *)
Theorem suggestions_relevant (trim toLowerCase : string -> string) (input : string)
    (history favorites : list string) (maxSuggestions : nat) :
  falsy (trim input) = false ->
  let suggestions :=
    getCommandSuggestions trim toLowerCase input history favorites maxSuggestions in
  (List.length suggestions <= maxSuggestions)%nat /\
  NoDup suggestions /\
  Forall (fun s => (In s favorites \/ In s history) /\
                   includes (toLowerCase s) (toLowerCase input) = true) suggestions.
Proof.
  intros Hinput. cbv zeta. unfold getCommandSuggestions. rewrite Hinput. cbv zeta.
  destruct (addFavorites_relevant toLowerCase (toLowerCase input) history favorites
              favorites []) as [Hn1 Hr1]; auto using NoDup_nil_2.
  destruct (addHistory_relevant toLowerCase (toLowerCase input) history favorites
              maxSuggestions history
              (addFavorites toLowerCase (toLowerCase input) favorites []))
    as [Hn2 Hr2]; auto.
  split; [apply firstn_le_length|]. split.
  - eapply sublist_NoDup; [exact Hn2|apply sublist_take].
  - apply Forall_take. exact Hr2.
Qed.

Lemma suggestions_relevant_witness :
  let suggestions :=
    getCommandSuggestions ascii_trim ascii_cyrillic_lower "U"
      ["uptime"; "sudo reboot"; "du -sh"; "uptime"] ["du -sh"; "ls"] 3 in
  suggestions = ["du -sh"; "uptime"; "sudo reboot"] /\
  (List.length suggestions <= 3)%nat /\
  NoDup suggestions /\
  Forall (fun s => (In s ["du -sh"; "ls"] \/
                    In s ["uptime"; "sudo reboot"; "du -sh"; "uptime"]) /\
                   includes (ascii_cyrillic_lower s) (ascii_cyrillic_lower "U") = true)
         suggestions.
Proof.
  split; [reflexivity|].
  apply (suggestions_relevant ascii_trim ascii_cyrillic_lower "U"
           ["uptime"; "sudo reboot"; "du -sh"; "uptime"] ["du -sh"; "ls"] 3).
  reflexivity.
Defined.

Section AutocompleteFacts.

Variable toLowerCase : string -> string.
Variable lowerInput : string.

Let completes (s : string) : bool := startsWith (toLowerCase s) lowerInput.

Lemma favoriteCandidates_filter (favs : list string) :
  forall candidates,
  favoriteCandidates toLowerCase lowerInput favs candidates =
  (candidates ++ List.filter completes favs)%list.
Proof.
  induction favs as [|x favs IH]; intros candidates; simpl.
  - rewrite app_nil_r. reflexivity.
  - rewrite IH. unfold completes. destruct (startsWith (toLowerCase x) lowerInput).
    + rewrite <- app_assoc. reflexivity.
    + reflexivity.
Qed.

Lemma historyCandidates_head (hist : list string) :
  forall candidates,
  head (historyCandidates toLowerCase lowerInput hist candidates) =
  head (candidates ++ List.filter completes hist)%list.
Proof.
  induction hist as [|x hist IH]; intros candidates; simpl.
  - rewrite app_nil_r. reflexivity.
  - rewrite IH. unfold completes.
    destruct (startsWith (toLowerCase x) lowerInput); simpl; [|reflexivity].
    destruct (existsb (String.eqb x) candidates) eqn:Hin; simpl.
    + apply existsb_eqb_true in Hin.
      destruct candidates as [|c candidates]; [contradiction|reflexivity].
    + rewrite <- app_assoc. reflexivity.
Qed.

End AutocompleteFacts.

(** X6. For a non-blank input, [autocompleteCommand] proposes the first
    favourite that starts with the input when both are lower-cased, failing
    that the first such command of the history, and nothing when there is
    neither. *)
Theorem autocomplete_first_match (trim toLowerCase : string -> string) (input : string)
    (history favorites : list string) :
  falsy (trim input) = false ->
  autocompleteCommand trim toLowerCase input history favorites =
  head (List.filter (fun s => startsWith (toLowerCase s) (toLowerCase input))
                    (favorites ++ history)).
Proof.
  intros Hinput. unfold autocompleteCommand. rewrite Hinput. cbv zeta.
  rewrite favoriteCandidates_filter. simpl app.
  rewrite List.filter_app, <- historyCandidates_head.
  destruct (historyCandidates _ _ _ _); reflexivity.
Qed.

Lemma autocomplete_first_match_witness :
  autocompleteCommand ascii_trim ascii_cyrillic_lower "DF"
    ["dfc"; "df -h"] ["ls"; "df -i"] = Some "df -i" /\
  autocompleteCommand ascii_trim ascii_cyrillic_lower "DF"
    ["dfc"; "df -h"] ["ls"; "df -i"] =
  head (List.filter (fun s => startsWith (ascii_cyrillic_lower s) (ascii_cyrillic_lower "DF"))
                    (["ls"; "df -i"] ++ ["dfc"; "df -h"])).
Proof.
  split; [reflexivity|].
  apply (autocomplete_first_match ascii_trim ascii_cyrillic_lower "DF"
           ["dfc"; "df -h"] ["ls"; "df -i"]).
  reflexivity.
Defined.

(** ** Data read back from local storage *)

Import StoredData.

(** X7. With a validator, [safeJsonParse] returns either the fallback or
    the parsed text itself, and then the validator has accepted it: data that
    fails validation never reaches the caller. *)
Theorem safe_parse_validated (JSON_parse : string -> option value)
    (jsonString : option string) (fallback : value) (accepts : value -> bool) :
  let data := safeJsonParse JSON_parse jsonString fallback (Some accepts) in
  data = fallback \/
  (accepts data = true /\
   exists text, jsonString = Some text /\ JSON_parse text = Some data).
Proof.
  cbv zeta. unfold safeJsonParse.
  destruct jsonString as [text|]; [|left; reflexivity].
  destruct (falsy text); [left; reflexivity|].
  destruct (JSON_parse text) as [parsed|] eqn:Hparse; [|left; reflexivity].
  destruct (accepts parsed) eqn:Hok; [|left; reflexivity].
  right. split; [exact Hok|]. exists text. split; [reflexivity|exact Hparse].
Qed.

Lemma Qle_bool_inject (a b : Z) : Qle_bool (inject_Z a) (inject_Z b) = (a <=? b)%Z.
Proof. unfold Qle_bool. simpl. rewrite !Z.mul_1_r. reflexivity. Qed.


(** ** Colours and groups of the host list *)

Import HostsUtils.

(** X9. [getHostColor] always answers with a colour: the host's own, or
    one of the eight of the palette, whatever the position and the group
    name. *)
Theorem host_colour_defined (charCodes : string -> list Z) (host : HostEntry) (index : nat) :
  exists colour,
    getHostColor charCodes host index = Some colour /\
    (color host = Some colour \/ In colour HOST_COLORS).
Proof.
  assert (Hpalette : forall i, (i < 8)%nat ->
            exists colour, HOST_COLORS !! i = Some colour /\ In colour HOST_COLORS).
  { intros i Hi. destruct (lookup_lt_is_Some_2 HOST_COLORS i Hi) as [colour Hc].
    exists colour. split; [exact Hc|].
    apply list_elem_of_In. eapply list_elem_of_lookup_2. exact Hc. }
  unfold getHostColor.
  destruct (truthy (color host)) eqn:Hown.
  - destruct (color host) as [colour|]; [|discriminate].
    exists colour. auto.
  - destruct (negb (truthy (group host))).
    + destruct (Hpalette (index mod 8)%nat) as (colour & Hc & Hin).
      { apply Nat.mod_upper_bound. discriminate. }
      exists colour. auto.
    + set (hash := groupHash charCodes _).
      destruct (Hpalette (Z.to_nat (Z.abs hash mod 8))) as (colour & Hc & Hin).
      { pose proof (Z.mod_pos_bound (Z.abs hash) 8 ltac:(lia)). lia. }
      exists colour. auto.
Qed.

Section GroupFacts.

Local Open Scope list_scope.

(** The pairs the flattened list is made of. *)
Let flatten (grouped : groups) : list (HostEntry * string) :=
  flat_map (fun entry => map (fun host => (host, fst entry)) (snd entry)) grouped.

Lemma flatten_app (g1 g2 : groups) : flatten (g1 ++ g2) = (flatten g1 ++ flatten g2)%list.
Proof. unfold flatten. apply flat_map_app. Qed.

Lemma has_app_new (key : string) (grouped : groups) :
  has key (grouped ++ [(key, [])]) = true.
Proof.
  unfold has. rewrite existsb_app. simpl. rewrite String.eqb_refl.
  rewrite orb_true_r. reflexivity.
Qed.

Lemma pushInto_flatten (key : string) (host : HostEntry) (grouped : groups) :
  has key grouped = true ->
  flatten (pushInto key host grouped) ≡ₚ (host, key) :: flatten grouped.
Proof.
  induction grouped as [|[k members] rest IH]; simpl; [discriminate|].
  destruct (String.eqb_spec k key) as [->|Hne]; simpl.
  - intros _. rewrite map_app. simpl.
    rewrite <- app_assoc. simpl. symmetry. apply Permutation_middle.
  - intros Hrest. rewrite (IH Hrest).
    rewrite (Permutation_middle (map (fun h => (h, k)) members) (flatten rest) (host, key)).
    reflexivity.
Qed.

Lemma addTo_flatten (key : string) (host : HostEntry) (grouped : groups) :
  flatten (addTo key host grouped) ≡ₚ (host, key) :: flatten grouped.
Proof.
  unfold addTo. destruct (has key grouped) eqn:Hhas.
  - apply pushInto_flatten, Hhas.
  - rewrite pushInto_flatten by apply has_app_new.
    rewrite flatten_app. simpl. rewrite app_nil_r. reflexivity.
Qed.

Lemma addTo_each_flatten (host : HostEntry) (names : list string) :
  forall grouped,
  flatten (fold_left (fun g name => addTo name host g) names grouped) ≡ₚ
  (flatten grouped ++ map (fun name => (host, name)) names)%list.
Proof.
  induction names as [|name names IH]; intros grouped; simpl.
  - rewrite app_nil_r. reflexivity.
  - rewrite IH, addTo_flatten. simpl. apply Permutation_middle.
Qed.

Lemma keys_pushInto (key : string) (host : HostEntry) (grouped : groups) :
  map fst (pushInto key host grouped) = map fst grouped.
Proof.
  induction grouped as [|[k members] rest IH]; simpl; [reflexivity|].
  destruct (String.eqb k key); simpl; [reflexivity|]. rewrite IH. reflexivity.
Qed.

Lemma has_false (key : string) (grouped : groups) :
  has key grouped = false -> ~ In key (map fst grouped).
Proof.
  unfold has. induction grouped as [|[k members] rest IH]; simpl; [tauto|].
  intros H. apply orb_false_iff in H as [Hk Hrest]. apply String.eqb_neq in Hk.
  intros [E|Hin]; [congruence|]. exact (IH Hrest Hin).
Qed.

Lemma nonempty_pushInto (key : string) (host : HostEntry) (grouped : groups) :
  Forall (fun entry => snd entry <> []) grouped ->
  Forall (fun entry => snd entry <> []) (pushInto key host grouped).
Proof.
  induction 1 as [|[k members] rest Hhead Hrest IH]; simpl; [constructor|].
  destruct (String.eqb k key); constructor; auto.
  simpl. destruct members; discriminate.
Qed.

Lemma pushInto_new (key : string) (host : HostEntry) (grouped : groups) :
  has key grouped = false ->
  pushInto key host (grouped ++ [(key, [])]) = (grouped ++ [(key, [host])])%list.
Proof.
  unfold has. induction grouped as [|[k members] rest IH]; simpl.
  - intros _. rewrite String.eqb_refl. reflexivity.
  - intros H. apply orb_false_iff in H as [Hk Hrest]. rewrite Hk, (IH Hrest). reflexivity.
Qed.

(** Adding a host keeps the group names distinct and no group empty. *)
Lemma addTo_well_formed (key : string) (host : HostEntry) (grouped : groups) :
  NoDup (map fst grouped) /\ Forall (fun entry => snd entry <> []) grouped ->
  NoDup (map fst (addTo key host grouped)) /\
  Forall (fun entry => snd entry <> []) (addTo key host grouped).
Proof.
  intros [Hkeys Hfull]. unfold addTo. destruct (has key grouped) eqn:Hhas.
  - rewrite keys_pushInto. split; [exact Hkeys|apply nonempty_pushInto, Hfull].
  - rewrite (pushInto_new key host grouped Hhas). split.
    + rewrite map_app. simpl. apply NoDup_app. split; [exact Hkeys|].
      split; [|apply NoDup_singleton].
      intros k Hk Hk'. apply list_elem_of_singleton in Hk'. subst k.
      apply (has_false key grouped Hhas), list_elem_of_In, Hk.
    + apply Forall_app. split; [exact Hfull|]. constructor; [discriminate|constructor].
Qed.

Lemma fold_well_formed {A : Type} (step : groups -> A -> groups) (items : list A) :
  (forall g x, NoDup (map fst g) /\ Forall (fun entry => snd entry <> []) g ->
               NoDup (map fst (step g x)) /\ Forall (fun entry => snd entry <> []) (step g x)) ->
  forall grouped,
  NoDup (map fst grouped) /\ Forall (fun entry => snd entry <> []) grouped ->
  NoDup (map fst (fold_left step items grouped)) /\
  Forall (fun entry => snd entry <> []) (fold_left step items grouped).
Proof.
  intros Hstep. induction items as [|x items IH]; intros grouped Hg; simpl; auto.
Qed.


(** X10. The flattened host list is a rearrangement of the memberships:
    it lists every host once under each of its tags, or once under the
    default group when it has no tag, when grouping by tags, and otherwise
    once under its own group or the default one. *)
Theorem flattened_hosts_are_memberships (settings : HostSettings) (hosts : list HostEntry) :
  getFlattenedHosts settings hosts ≡ₚ memberships settings hosts.
Proof.
  change (getFlattenedHosts settings hosts) with (flatten (groupHosts settings hosts)).
  assert (Hfold : forall (names : HostEntry -> list string)
                         (step : groups -> HostEntry -> groups),
            (forall g h, flatten (step g h) ≡ₚ
                         (flatten g ++ map (fun name => (h, name)) (names h))%list) ->
            forall hs g,
            flatten (fold_left step hs g) ≡ₚ
            (flatten g ++ flat_map (fun h => map (fun name => (h, name)) (names h)) hs)%list).
  { intros names step Hstep. induction hs as [|h hs IH]; intros g; simpl.
    - rewrite app_nil_r. reflexivity.
    - rewrite IH, Hstep, <- app_assoc. reflexivity. }
  unfold groupHosts, memberships, groupNames.
  destruct (groupByTags settings).
  - rewrite (Hfold (fun h => match tags h with
                             | Some (tag :: more) => tag :: more
                             | _ => [or_else (Some (defaultGroup settings)) "Без тегов"]
                             end)); [reflexivity|].
    intros g h. destruct (tags h) as [[|tag more]|].
    + rewrite addTo_flatten. simpl. apply Permutation_cons_append.
    + apply addTo_each_flatten.
    + rewrite addTo_flatten. simpl. apply Permutation_cons_append.
  - rewrite (Hfold (fun h => [or_else (group h)
                                (or_else (Some (defaultGroup settings)) "default")]));
      [reflexivity|].
    intros g h. rewrite addTo_flatten. simpl. apply Permutation_cons_append.
Qed.

End GroupFacts.

(** X11. [groupHosts] names every group once and leaves no group empty, so
    the hosts of one group are listed together. *)
Theorem groups_distinct_and_inhabited (settings : HostSettings) (hosts : list HostEntry) :
  NoDup (map fst (groupHosts settings hosts)) /\
  Forall (fun entry => snd entry <> []) (groupHosts settings hosts).
Proof.
  unfold groupHosts. destruct (groupByTags settings).
  - apply fold_well_formed; [|split; constructor].
    intros g h Hg. destruct (tags h) as [[|tag more]|].
    + apply addTo_well_formed, Hg.
    + apply (fold_well_formed (fun g name => addTo name h g)); [|exact Hg].
      intros g' name Hg'. apply addTo_well_formed, Hg'.
    + apply addTo_well_formed, Hg.
  - apply fold_well_formed; [|split; constructor].
    intros g h Hg. apply addTo_well_formed, Hg.
Qed.

Example fleet_by_tags :
  map (fun entry => (ip (fst entry), snd entry)) (getFlattenedHosts byTags fleet) =
  [("10.0.0.1", "prod"); ("10.0.0.4", "prod"); ("10.0.0.1", "eu");
   ("10.0.0.2", "Без тегов"); ("10.0.0.3", "Без тегов")].
Proof. reflexivity. Qed.

(** ** resultsCleanup.ts *)

Import ResultsCleanup.

Section CleanupFacts.

Variable T : Type.
Variable timestampOf : T -> option string.
Variable Date_parse : string -> option Z.

Lemma recent_earlier (c1 c2 : Z) (r : T) :
  (c1 <= c2)%Z ->
  recent T timestampOf Date_parse c2 r = true ->
  recent T timestampOf Date_parse c1 r = true.
Proof.
  unfold recent. intros Hle.
  destruct (timestampOf r) as [ts|]; [|auto].
  destruct (falsy ts); [auto|].
  destruct (Date_parse ts) as [d|]; [|auto].
  rewrite !Z.leb_le. lia.
Qed.

Lemma filter_sublist_impl (f g : T -> bool) (l : list T) :
  (forall x, f x = true -> g x = true) ->
  sublist (List.filter f l) (List.filter g l).
Proof.
  intros Himpl. induction l as [|x l IH]; simpl; [constructor|].
  destruct (f x) eqn:Hf.
  - rewrite (Himpl x Hf). apply sublist_skip, IH.
  - destruct (g x); [apply sublist_cons|]; exact IH.
Qed.

Lemma filter_filter_impl (f g : T -> bool) (l : list T) :
  (forall x, f x = true -> g x = true) ->
  List.filter f (List.filter g l) = List.filter f l.
Proof.
  intros Himpl. induction l as [|x l IH]; simpl; [reflexivity|].
  destruct (g x) eqn:Hg; simpl.
  - rewrite IH. reflexivity.
  - destruct (f x) eqn:Hf; [rewrite (Himpl x Hf) in Hg; discriminate|exact IH].
Qed.

End CleanupFacts.

(** X12. [cleanupOldResults] only ever removes records: what it returns is
    the input with some records left out, in the same order, and a record
    without a timestamp, or with an empty one, is never left out. *)
Theorem cleanup_only_removes_dated (T : Type) (timestampOf : T -> option string)
    (Date_parse : string -> option Z) (now : Z) (results : list T) (retentionDays : Z) :
  sublist (cleanupOldResults T timestampOf Date_parse now results retentionDays) results /\
  Forall (fun r => In r (cleanupOldResults T timestampOf Date_parse now results retentionDays))
         (List.filter (fun r => match timestampOf r with
                                | None => true
                                | Some ts => falsy ts
                                end) results).
Proof.
  unfold cleanupOldResults. destruct (retentionDays <=? 0)%Z.
  - split; [reflexivity|]. apply Forall_forall. intros r Hr.
    apply list_elem_of_In in Hr. apply filter_In in Hr. tauto.
  - split; [apply filter_sublist|]. apply Forall_forall. intros r Hr.
    apply list_elem_of_In in Hr. apply filter_In in Hr as [Hin Hundated].
    apply filter_In. split; [exact Hin|]. unfold recent.
    destruct (timestampOf r) as [ts|]; [|reflexivity]. rewrite Hundated. reflexivity.
Qed.

(** X13. Cleaning up again later, with the same positive retention, gives
    what a single clean-up at the later time gives: the hourly clean-up can
    run any number of times. *)
Theorem cleanup_again_later (T : Type) (timestampOf : T -> option string)
    (Date_parse : string -> option Z) (earlier later : Z) (results : list T)
    (retentionDays : Z) :
  (0 < retentionDays)%Z ->
  (earlier <= later)%Z ->
  cleanupOldResults T timestampOf Date_parse later
    (cleanupOldResults T timestampOf Date_parse earlier results retentionDays)
    retentionDays =
  cleanupOldResults T timestampOf Date_parse later results retentionDays.
Proof.
  intros Hdays Htime. unfold cleanupOldResults.
  destruct (retentionDays <=? 0)%Z eqn:Hle; [apply Z.leb_le in Hle; lia|].
  apply filter_filter_impl. intros r. apply recent_earlier. lia.
Qed.

(** X14. With a positive retention, keeping results longer or cleaning up
    earlier never removes more: whatever survives a clean-up survives one
    with a longer retention at an earlier time. *)
Theorem cleanup_monotone (T : Type) (timestampOf : T -> option string)
    (Date_parse : string -> option Z) (earlier later : Z) (results : list T)
    (shorter longer : Z) :
  (0 < shorter)%Z ->
  (shorter <= longer)%Z ->
  (earlier <= later)%Z ->
  sublist (cleanupOldResults T timestampOf Date_parse later results shorter)
          (cleanupOldResults T timestampOf Date_parse earlier results longer).
Proof.
  intros Hpos Hdays Htime. unfold cleanupOldResults.
  destruct (shorter <=? 0)%Z eqn:Hs; [apply Z.leb_le in Hs; lia|].
  destruct (longer <=? 0)%Z eqn:Hl; [apply Z.leb_le in Hl; lia|].
  apply filter_sublist_impl. intros r. apply recent_earlier. lia.
Qed.

Lemma cleanup_again_later_witness :
  (0 < 3)%Z /\ (5 * 86400000 <= 10 * 86400000)%Z /\
  cleanupOldResults _ snd dayClock (10 * 86400000) stamped 3 =
    [("10.0.0.2", None); ("10.0.0.3", Some "2024-05-09"); ("10.0.0.5", Some "")] /\
  cleanupOldResults _ snd dayClock (10 * 86400000)
    (cleanupOldResults _ snd dayClock (5 * 86400000) stamped 3) 3 =
  cleanupOldResults _ snd dayClock (10 * 86400000) stamped 3.
Proof.
  split; [lia|]. split; [lia|]. split; [reflexivity|].
  apply (cleanup_again_later _ snd dayClock (5 * 86400000) (10 * 86400000) stamped 3); lia.
Defined.

Lemma cleanup_monotone_witness :
  (0 < 3)%Z /\ (3 <= 7)%Z /\ (5 * 86400000 <= 10 * 86400000)%Z /\
  sublist (cleanupOldResults _ snd dayClock (10 * 86400000) stamped 3)
          (cleanupOldResults _ snd dayClock (5 * 86400000) stamped 7).
Proof.
  split; [lia|]. split; [lia|]. split; [lia|].
  apply (cleanup_monotone _ snd dayClock (5 * 86400000) (10 * 86400000) stamped 3 7); lia.
Defined.

(** ** The result rows of the batch page *)

Import ResultRows.

Section RowFacts.

Local Open Scope list_scope.

Lemma find_set_eq (key : string) (r : BatchCommandResult) (m : rows) :
  find key (set key r m) = Some r.
Proof.
  induction m as [|[k old] rest IH]; simpl.
  - rewrite String.eqb_refl. reflexivity.
  - destruct (String.eqb k key) eqn:E; simpl; rewrite E; [reflexivity|exact IH].
Qed.

Lemma find_set_ne (key other : string) (r : BatchCommandResult) (m : rows) :
  key <> other -> find other (set key r m) = find other m.
Proof.
  intros Hne. induction m as [|[k old] rest IH]; simpl.
  - apply String.eqb_neq in Hne. rewrite Hne. reflexivity.
  - destruct (String.eqb_spec k key) as [->|Hk]; simpl.
    + apply String.eqb_neq in Hne. rewrite Hne. reflexivity.
    + rewrite IH. reflexivity.
Qed.

Lemma find_app (key : string) (m1 m2 : rows) :
  find key (m1 ++ m2) =
  match find key m1 with
  | Some r => Some r
  | None => find key m2
  end.
Proof.
  induction m1 as [|[k r] rest IH]; simpl; [reflexivity|].
  destruct (String.eqb k key); [reflexivity|exact IH].
Qed.

(** After a series of [set]s the last one for a key decides. *)
Lemma find_fold_set (key : string) (entries : rows) :
  forall m,
  find key (fold_left (fun m entry => set (fst entry) (snd entry) m) entries m) =
  match find key (rev entries) with
  | Some r => Some r
  | None => find key m
  end.
Proof.
  induction entries as [|[k r] entries IH]; intros m; simpl; [reflexivity|].
  rewrite IH, find_app. destruct (find key (rev entries)); [reflexivity|].
  simpl. destruct (String.eqb_spec k key) as [->|Hne].
  - apply find_set_eq.
  - apply find_set_ne, Hne.
Qed.

Lemma keys_set (key : string) (r : BatchCommandResult) (m : rows) :
  map fst (set key r m) =
  if existsb (String.eqb key) (map fst m) then map fst m else map fst m ++ [key].
Proof.
  induction m as [|[k old] rest IH]; simpl; [reflexivity|].
  rewrite (String.eqb_sym key k).
  destruct (String.eqb k key); simpl; [reflexivity|]. rewrite IH.
  destruct (existsb _ _); reflexivity.
Qed.

Lemma NoDup_keys_set (key : string) (r : BatchCommandResult) (m : rows) :
  NoDup (map fst m) -> NoDup (map fst (set key r m)).
Proof.
  intros Hm. rewrite keys_set.
  destruct (existsb (String.eqb key) (map fst m)) eqn:Hin; [exact Hm|].
  apply existsb_eqb_false in Hin.
  apply NoDup_app. split; [exact Hm|]. split; [|apply NoDup_singleton].
  intros k Hk Hk'. apply list_elem_of_singleton in Hk'. subst k.
  apply Hin, list_elem_of_In, Hk.
Qed.


Lemma filed_set (r : BatchCommandResult) (m : rows) :
  filed m -> filed (set (host r) r m).
Proof.
  unfold filed. induction 1 as [|[k old] rest Hhead Hrest IH]; simpl.
  - constructor; [reflexivity|constructor].
  - destruct (String.eqb k (host r)) eqn:E; constructor; auto.
    simpl. apply String.eqb_eq in E. exact E.
Qed.

Lemma fold_set_well_formed (entries : rows) :
  forall m,
  filed entries -> filed m -> NoDup (map fst m) ->
  let m' := fold_left (fun m entry => set (fst entry) (snd entry) m) entries m in
  filed m' /\ NoDup (map fst m').
Proof.
  induction entries as [|[k r] entries IH]; intros m Hentries Hm Hkeys; simpl; [auto|].
  inversion Hentries as [|? ? Hk Hrest]; subst. simpl in Hk. subst k.
  apply IH; [exact Hrest|apply filed_set, Hm|apply NoDup_keys_set, Hkeys].
Qed.

Lemma find_In (key : string) (r : BatchCommandResult) (m : rows) :
  NoDup (map fst m) -> (find key m = Some r <-> In (key, r) m).
Proof.
  induction m as [|[k old] rest IH]; simpl; intros Hkeys.
  - split; [discriminate|contradiction].
  - apply NoDup_cons in Hkeys as [Hk Hrest].
    destruct (String.eqb_spec k key) as [->|Hne].
    + split.
      * intros E. injection E as ->. left. reflexivity.
      * intros [E|Hin]; [injection E as ->; reflexivity|].
        exfalso. apply Hk, list_elem_of_In, in_map_iff. exists (key, r). auto.
    + rewrite (IH Hrest). split; [auto|]. intros [E|Hin]; [congruence|exact Hin].
Qed.

Lemma find_None (key : string) (m : rows) :
  find key m = None <-> ~ In key (map fst m).
Proof.
  induction m as [|[k old] rest IH]; simpl; [tauto|].
  destruct (String.eqb_spec k key) as [->|Hne].
  - split; [discriminate|]. intros H. exfalso. apply H. left. reflexivity.
  - rewrite IH. split; [intros H [E|Hin]; [congruence|auto]|auto].
Qed.

Lemma find_rev (key : string) (m : rows) :
  NoDup (map fst m) -> find key (rev m) = find key m.
Proof.
  intros Hkeys.
  assert (Hrev : NoDup (map fst (rev m))).
  { rewrite map_rev, <- Permutation_rev. exact Hkeys. }
  destruct (find key m) as [r|] eqn:Hfind.
  - apply find_In; [exact Hrev|]. apply in_rev. rewrite rev_involutive.
    apply find_In; assumption.
  - apply find_None. rewrite map_rev, <- in_rev. apply find_None, Hfind.
Qed.

Lemma find_stamped (now key : string) (results : list BatchCommandResult) :
  find key (map (fun r => (host r, addTimestamp now r)) results) =
  option_map (addTimestamp now) (find key (map (fun r => (host r, r)) results)).
Proof.
  induction results as [|r results IH]; simpl; [reflexivity|].
  destruct (String.eqb (host r) key); [reflexivity|exact IH].
Qed.

Lemma filed_entries (f : BatchCommandResult -> BatchCommandResult)
    (results : list BatchCommandResult) :
  (forall r, host (f r) = host r) ->
  filed (map (fun r => (host r, f r)) results).
Proof.
  intros Hf. unfold filed. induction results as [|r results IH]; simpl; constructor; auto.
  simpl. symmetry. apply Hf.
Qed.

Lemma queueAll_fold (now : string) (queued : list BatchCommandResult) :
  forall pending,
  fold_left (fun pending r => queueResultUpdate now r pending) queued pending =
  fold_left (fun m entry => set (fst entry) (snd entry) m)
            (map (fun r => (host r, addTimestamp now r)) queued) pending.
Proof.
  induction queued as [|r queued IH]; intros pending; simpl; [reflexivity|].
  rewrite IH. reflexivity.
Qed.

Lemma set_not_empty (key : string) (r : BatchCommandResult) (m : rows) : set key r m <> [].
Proof. destruct m as [|[k old] rest]; simpl; [discriminate|]. destruct (String.eqb k key); discriminate. Qed.

Lemma fold_set_not_empty (entries : rows) :
  forall m, m <> [] ->
  fold_left (fun m entry => set (fst entry) (snd entry) m) entries m <> [].
Proof.
  induction entries as [|[k r] entries IH]; intros m Hm; simpl; [exact Hm|].
  apply IH, set_not_empty.
Qed.

End RowFacts.

(** X15. When the queued results are flushed, the page shows one row per
    host, for exactly the hosts it showed before and those of the queued
    results; the row of a host is its latest queued result, stamped, and, for
    a host without queued result, the last row it had before. *)
Theorem flush_shows_latest (now : string) (queued prev : list BatchCommandResult) :
  queued <> [] ->
  let shown := flushPendingResults (queueAll now queued) prev in
  NoDup (map host shown) /\
  (forall h, In h (map host shown) <-> In h (map host prev) \/ In h (map host queued)) /\
  Forall (fun row =>
            match latest (host row) queued with
            | Some r => row = addTimestamp now r
            | None => latest (host row) prev = Some row
            end) shown.
Proof.
  intros Hqueued. cbv zeta.
  set (stamp := map (fun r => (host r, addTimestamp now r)) queued).
  set (before := map (fun r => (host r, r)) prev).
  assert (Hpending : queueAll now queued =
            fold_left (fun m entry => set (fst entry) (snd entry) m) stamp []).
  { unfold queueAll. apply queueAll_fold. }
  assert (Hstamp : filed stamp) by (apply filed_entries; reflexivity).
  assert (Hbefore : filed before) by (apply (filed_entries (fun r => r)); reflexivity).
  destruct (fold_set_well_formed stamp [] Hstamp) as [Hpf Hpk];
    [constructor|constructor|]. cbv zeta in Hpf, Hpk. rewrite <- Hpending in Hpf, Hpk.
  destruct (fold_set_well_formed before [] Hbefore) as [Hcf Hck];
    [constructor|constructor|]. cbv zeta in Hcf, Hck.
  change (fold_left _ before []) with (fromEntries before) in Hcf, Hck.
  set (current := fromEntries before) in Hcf, Hck.
  destruct (fold_set_well_formed (queueAll now queued) current Hpf Hcf Hck) as [Hmf Hmk].
  cbv zeta in Hmf, Hmk.
  assert (Hshown : flushPendingResults (queueAll now queued) prev =
            map snd (fold_left (fun m entry => set (fst entry) (snd entry) m)
                               (queueAll now queued) current)).
  { assert (Hfull : queueAll now queued <> []).
    { rewrite Hpending. unfold stamp. destruct queued as [|r queued]; [congruence|].
      simpl. apply fold_set_not_empty. discriminate. }
    unfold flushPendingResults. fold before. fold current.
    destruct (queueAll now queued); [congruence|reflexivity]. }
  rewrite Hshown.
  set (merged := fold_left (fun m entry => set (fst entry) (snd entry) m)
                           (queueAll now queued) current) in *.
  assert (Hhosts : map host (map snd merged) = map fst merged).
  { rewrite map_map. apply map_ext_Forall. eapply Forall_impl; [exact Hmf|].
    intros entry E. symmetry. exact E. }
  assert (Hfind : forall h,
            find h merged =
            match latest h queued with
            | Some r => Some (addTimestamp now r)
            | None => latest h prev
            end).
  { intros h. unfold merged. rewrite find_fold_set, (find_rev h _ Hpk), Hpending.
    rewrite find_fold_set. simpl find at 2. unfold current, fromEntries. rewrite find_fold_set.
    simpl find at 3. unfold stamp, latest. rewrite <- !map_rev, find_stamped.
    unfold before. rewrite <- map_rev.
    destruct (find h (map _ (rev queued))); simpl; [reflexivity|].
    destruct (find h (map _ (rev prev))); reflexivity. }
  split; [rewrite Hhosts; exact Hmk|]. split.
  - intros h. rewrite Hhosts.
    assert (Hin : In h (map fst merged) <-> find h merged <> None).
    { pose proof (find_None h merged) as Hn.
      destruct (in_dec string_dec h (map fst merged)); tauto. }
    assert (Hlatest : forall rs, latest h rs <> None <-> In h (map host rs)).
    { intros rs. unfold latest. pose proof (find_None h (rev (map (fun r => (host r, r)) rs))) as Hn.
      rewrite map_rev, <- in_rev, map_map in Hn. simpl in Hn.
      destruct (in_dec string_dec h (map host rs)) as [Hyes|Hno].
      - split; [intros _; exact Hyes|]. intros _ Hnone. apply Hn in Hnone. contradiction.
      - split; [|contradiction]. intros Hsome. exfalso. apply Hsome, Hn, Hno. }
    rewrite Hin, Hfind, <- !Hlatest.
    destruct (latest h queued), (latest h prev); split; intros H;
      try congruence; try tauto; try (right; discriminate); try (left; discriminate).
  - apply Forall_forall. intros row Hrow. apply list_elem_of_In, in_map_iff in Hrow.
    destruct Hrow as ([k r] & Hr & Hin). simpl in Hr. subst r.
    pose proof (proj1 (Forall_forall _ _) Hmf (k, row) (proj2 (list_elem_of_In _ _) Hin)) as Hk.
    simpl in Hk. subst k.
    apply (find_In _ _ _ Hmk) in Hin. rewrite Hfind in Hin.
    destruct (latest (host row) queued); [congruence|exact Hin].
Qed.

Lemma flush_shows_latest_witness :
  [failure "10.0.0.2" "timeout"; success "10.0.0.3" "ok"; success "10.0.0.2" "up"] <> [] /\
  flushPendingResults
    (queueAll "12:00" [failure "10.0.0.2" "timeout"; success "10.0.0.3" "ok";
                       success "10.0.0.2" "up"])
    [failure "10.0.0.1" "refused"; failure "10.0.0.2" "refused"] =
  [failure "10.0.0.1" "refused";
   addTimestamp "12:00" (success "10.0.0.2" "up");
   addTimestamp "12:00" (success "10.0.0.3" "ok")] /\
  let shown :=
    flushPendingResults
      (queueAll "12:00" [failure "10.0.0.2" "timeout"; success "10.0.0.3" "ok";
                         success "10.0.0.2" "up"])
      [failure "10.0.0.1" "refused"; failure "10.0.0.2" "refused"] in
  NoDup (map host shown) /\
  (forall h, In h (map host shown) <->
     In h (map host [failure "10.0.0.1" "refused"; failure "10.0.0.2" "refused"]) \/
     In h (map host [failure "10.0.0.2" "timeout"; success "10.0.0.3" "ok";
                     success "10.0.0.2" "up"])) /\
  Forall (fun row =>
            match latest (host row) [failure "10.0.0.2" "timeout"; success "10.0.0.3" "ok";
                                     success "10.0.0.2" "up"] with
            | Some r => row = addTimestamp "12:00" r
            | None => latest (host row)
                        [failure "10.0.0.1" "refused"; failure "10.0.0.2" "refused"] = Some row
            end) shown.
Proof.
  split; [discriminate|]. split; [reflexivity|].
  apply (flush_shows_latest "12:00"
           [failure "10.0.0.2" "timeout"; success "10.0.0.3" "ok"; success "10.0.0.2" "up"]
           [failure "10.0.0.1" "refused"; failure "10.0.0.2" "refused"]).
  discriminate.
Defined.

(** ** The statistics above the results, and the estimate *)

Section StatisticsFacts.

Local Open Scope list_scope.
Local Open Scope nat_scope.

Variable st : State.

(** The records the loop puts in [completed]. *)
Local Abbreviation finished :=
  (fun r => negb (inProgress st r) && (non_null (result r) || non_null (error r))).

Lemma count_fold (results : list BatchCommandResult) :
  forall acc,
  let s := fold_left (count st) results acc in
  completedResults s = completedResults acc ++ List.filter finished results /\
  batchSuccessCount s =
    batchSuccessCount acc + List.length (List.filter succeeded (List.filter finished results)) /\
  batchErrorCount s =
    batchErrorCount acc + List.length (List.filter failed (List.filter finished results)) /\
  batchInProgressCount s =
    batchInProgressCount acc + List.length (List.filter (inProgress st) results).
Proof.
  induction results as [|r results IH]; intros acc; simpl.
  - rewrite app_nil_r. repeat split; lia.
  - destruct (IH (count st acc r)) as (Hc & Hs & He & Hp).
    rewrite Hc, Hs, He, Hp. clear IH Hc Hs He Hp.
    unfold count. destruct (inProgress st r); simpl.
    + repeat split; lia.
    + destruct (non_null (result r) || non_null (error r)); simpl.
      * rewrite <- app_assoc. simpl.
        destruct (succeeded r), (failed r); simpl; repeat split; lia.
      * repeat split; lia.
Qed.

Lemma finished_counted (r : BatchCommandResult) :
  finished r = true -> succeeded r || failed r = true.
Proof.
  unfold succeeded, failed. destruct (inProgress st r); simpl; [discriminate|].
  destruct (result r) as [c|], (error r) as [e|]; simpl; try discriminate; intros _.
  - apply orb_true_r.
  - destruct (exit_status c =? 0)%Z; reflexivity.
  - reflexivity.
Qed.

Lemma filter_length_le {A : Type} (p : A -> bool) (l : list A) :
  List.length (List.filter p l) <= List.length l.
Proof. induction l as [|a l IH]; simpl; [lia|]. destruct (p a); simpl; lia. Qed.

Lemma filter_cover {A : Type} (p q : A -> bool) (l : list A) :
  (forall a, In a l -> p a || q a = true) ->
  List.length l <= List.length (List.filter p l) + List.length (List.filter q l).
Proof.
  induction l as [|a l IH]; intros H; simpl; [lia|].
  assert (Ha : p a || q a = true) by (apply H; left; reflexivity).
  assert (IH' : List.length l <= List.length (List.filter p l) + List.length (List.filter q l)).
  { apply IH. intros b Hb. apply H. right. exact Hb. }
  destruct (p a), (q a); simpl in *; try discriminate; lia.
Qed.

Lemma filter_split_length {A : Type} (p q : A -> bool) (l : list A) :
  (forall a, p a && q a = false) ->
  List.length (List.filter p l) + List.length (List.filter q l) <= List.length l.
Proof.
  intros H. induction l as [|a l IH]; simpl; [lia|].
  specialize (H a). destruct (p a), (q a); simpl in *; try discriminate; lia.
Qed.

End StatisticsFacts.

(** X16. The single pass that computes the statistics agrees with the four
    filters it replaces: [completedResults] are the records that are not in
    progress and have a result or an error, in their order, and the three
    counters count the successes and the failures among them and the records
    in progress. *)
Theorem statistics_as_filters (st : State) (batchResults : list BatchCommandResult) :
  let s := statistics st batchResults in
  let finished := fun r => negb (inProgress st r) && (non_null (result r) || non_null (error r)) in
  completedResults s = List.filter finished batchResults /\
  batchSuccessCount s = List.length (List.filter succeeded (completedResults s)) /\
  batchErrorCount s = List.length (List.filter failed (completedResults s)) /\
  batchInProgressCount s = List.length (List.filter (inProgress st) batchResults).
Proof.
  cbv zeta. unfold statistics.
  destruct (count_fold st batchResults
              {| completedResults := []; batchSuccessCount := 0;
                 batchErrorCount := 0; batchInProgressCount := 0 |}) as (Hc & Hs & He & Hp).
  simpl in Hc, Hs, He, Hp. rewrite Hc, Hs, He, Hp. repeat split; reflexivity.
Qed.

(** X17. The counters are consistent: no record is counted both as in
    progress and as completed, every completed record is counted as a success
    or as a failure, and neither of these two counters exceeds the number of
    completed records. *)
Theorem statistics_consistent (st : State) (batchResults : list BatchCommandResult) :
  let s := statistics st batchResults in
  (batchInProgressCount s + List.length (completedResults s) <= List.length batchResults)%nat /\
  (batchSuccessCount s <= List.length (completedResults s))%nat /\
  (batchErrorCount s <= List.length (completedResults s))%nat /\
  (List.length (completedResults s) <= batchSuccessCount s + batchErrorCount s)%nat.
Proof.
  cbv zeta. unfold statistics.
  destruct (count_fold st batchResults
              {| completedResults := []; batchSuccessCount := 0;
                 batchErrorCount := 0; batchInProgressCount := 0 |}) as (Hc & Hs & He & Hp).
  simpl in Hc, Hs, He, Hp. rewrite Hc, Hs, He, Hp. clear Hc Hs He Hp.
  split; [|split; [|split]].
  - apply filter_split_length. intros r. destruct (inProgress st r); reflexivity.
  - apply filter_length_le.
  - apply filter_length_le.
  - apply filter_cover. intros r Hr. apply List.filter_In in Hr.
    apply (finished_counted st). exact (proj2 Hr).
Qed.

(** X18. With a positive concurrency limit and at least one host, the
    estimate plans [waves] rounds of [hostsPerWave] hosts: that many rounds
    cover every host and one round fewer would not. *)
Theorem waves_cover_hosts (hostCount : nat) (batchConfig : BatchConfig) (settings : Settings) :
  (0 < hostCount)%nat ->
  (0 < Z_or (bc_max_concurrent batchConfig) (maxConcurrent settings))%Z ->
  exists w : Z,
    waves hostCount batchConfig settings = Some w /\
    ((w - 1) * hostsPerWave hostCount batchConfig settings < Z.of_nat hostCount)%Z /\
    (Z.of_nat hostCount <= w * hostsPerWave hostCount batchConfig settings)%Z.
Proof.
  intros Hhosts Hlimit. unfold waves, hostsPerWave.
  set (m := Z_or (bc_max_concurrent batchConfig) (maxConcurrent settings)) in *.
  destruct (Z.eqb_spec m 0) as [E|_]; [lia|].
  exists (- (- Z.of_nat hostCount / m))%Z. split; [reflexivity|].
  pose proof (Z.div_mod (- Z.of_nat hostCount) m ltac:(lia)) as Hdiv.
  pose proof (Z.mod_pos_bound (- Z.of_nat hostCount) m Hlimit) as Hmod.
  set (q := (- Z.of_nat hostCount / m)%Z) in *.
  set (r := (- Z.of_nat hostCount mod m)%Z) in *.
  destruct (Z.min_spec (Z.of_nat hostCount) m) as [[Hlt ->]|[Hge ->]].
  - assert (q = -1)%Z by nia. subst q. replace (- -1)%Z with 1%Z by lia. lia.
  - nia.
Qed.

Lemma waves_cover_hosts_witness :
  (0 < 120)%nat /\
  (0 < Z_or (bc_max_concurrent passwordConfig) (maxConcurrent defaultSettings))%Z /\
  waves 120 passwordConfig defaultSettings = Some 3%Z /\
  hostsPerWave 120 passwordConfig defaultSettings = 50%Z /\
  exists w : Z,
    waves 120 passwordConfig defaultSettings = Some w /\
    ((w - 1) * hostsPerWave 120 passwordConfig defaultSettings < Z.of_nat 120)%Z /\
    (Z.of_nat 120 <= w * hostsPerWave 120 passwordConfig defaultSettings)%Z.
Proof.
  split; [lia|]. split; [reflexivity|]. split; [reflexivity|]. split; [reflexivity|].
  apply (waves_cover_hosts 120 passwordConfig defaultSettings); [lia|reflexivity].
Defined.

(** ** The retry countdowns of the batch page *)

Import BatchPage.

Section CountdownFacts.

Variable toLowerCase : string -> string.

Local Abbreviation onBatchResult := (onBatchResult toLowerCase).
Local Abbreviation step := (step toLowerCase).
Local Abbreviation run := (run toLowerCase).

(** Every countdown is at zero or above. *)
Local Abbreviation counting st := (map_Forall (fun (_ : string) (timeLeft : Z) => (0 <= timeLeft)%Z) (retryTimers st)).

Lemma step_counting (ev : event) (st : State) :
  intervalNotNegative ev = true -> counting st -> counting (step ev st).
Proof.
  intros HintervalNotNegative Hst. destruct ev as [settings r|enabled| | | |]; simpl in *.
  - apply Z.leb_le in HintervalNotNegative. unfold Workspace.onBatchResult.
    repeat match goal with
           | |- context [if ?b then _ else _] => destruct b
           end;
      simpl; try assumption;
      first [apply map_Forall_delete; assumption
            |apply map_Forall_insert_2; assumption].
  - unfold tick. destruct (_ || _); simpl; [assumption|].
    apply map_Forall_fmap. eapply map_Forall_impl; [exact Hst|].
    intros h timeLeft Hpos. simpl in *. destruct (Z.ltb_spec 0 timeLeft); lia.
  - apply map_Forall_empty.
  - apply map_Forall_empty.
  - apply map_Forall_empty.
  - unfold batchStart. destruct (batchExecuting st); simpl; assumption.
Qed.

Lemma tick_live (h : string) (timeLeft : Z) (st : State) :
  batchExecuting st = true ->
  retryTimers st !! h = Some timeLeft ->
  retryTimers (tick true st) !! h =
    Some (if (0 <? timeLeft)%Z then (timeLeft - 1)%Z else timeLeft) /\
  batchExecuting (tick true st) = true.
Proof.
  intros Hrunning Htimer. unfold tick. rewrite Hrunning. simpl.
  destruct (Nat.eqb_spec (size (retryTimers st)) 0) as [Hempty|_]; simpl.
  - apply map_size_empty_iff in Hempty. rewrite Hempty, lookup_empty in Htimer.
    discriminate.
  - rewrite lookup_fmap, Htimer. split; [reflexivity|exact Hrunning].
Qed.

End CountdownFacts.

(** X19. No countdown is ever negative: if none is when a sequence of events
    starts and no result is handled under a negative retry interval, none is
    after the events have been handled. *)
Theorem countdowns_never_negative (toLowerCase : string -> string)
    (evs : list event) (st : State) (h : string) (timeLeft : Z) :
  map_Forall (fun _ t => (0 <= t)%Z) (retryTimers st) ->
  forallb intervalNotNegative evs = true ->
  retryTimers (run toLowerCase evs st) !! h = Some timeLeft ->
  (0 <= timeLeft)%Z.
Proof.
  revert st. induction evs as [|ev evs IH]; intros st Hst Hevs Htimer; simpl in *.
  - exact (Hst h timeLeft Htimer).
  - apply andb_true_iff in Hevs as [Hev Hevs].
    apply (IH (step toLowerCase ev st)); [|exact Hevs|exact Htimer].
    apply step_counting; assumption.
Qed.

Lemma countdowns_never_negative_witness :
  map_Forall (fun _ t => (0 <= t)%Z) (retryTimers restored) /\
  forallb intervalNotNegative [BatchStart; BatchResult retryTwice (failure "10.0.0.3" "connection timeout");
                Tick true; Tick true] = true /\
  retryTimers (run ascii_cyrillic_lower
                 [BatchStart; BatchResult retryTwice (failure "10.0.0.3" "connection timeout");
                  Tick true; Tick true] restored) !! "10.0.0.3" = Some 28%Z /\
  (0 <= 28)%Z.
Proof.
  assert (Hrestored : map_Forall (fun _ t => (0 <= t)%Z) (retryTimers restored)).
  { apply map_Forall_singleton. lia. }
  split; [exact Hrestored|]. split; [reflexivity|]. split; [vm_compute; reflexivity|].
  apply (countdowns_never_negative ascii_cyrillic_lower
           [BatchStart; BatchResult retryTwice (failure "10.0.0.3" "connection timeout");
            Tick true; Tick true] restored "10.0.0.3" 28);
    [exact Hrestored|reflexivity|vm_compute; reflexivity].
Defined.

(** X20. While the batch runs with retries enabled, [n] seconds of countdown
    take a countdown of [timeLeft] seconds to [timeLeft - n], and leave it at
    zero once it is there: the timer is not removed when it expires. *)
Theorem countdown_stops_at_zero (toLowerCase : string -> string)
    (n : nat) (h : string) (timeLeft : Z) (st : State) :
  batchExecuting st = true ->
  retryTimers st !! h = Some timeLeft ->
  (0 <= timeLeft)%Z ->
  retryTimers (run toLowerCase (repeat (Tick true) n) st) !! h =
    Some (Z.max 0 (timeLeft - Z.of_nat n)).
Proof.
  revert timeLeft st. induction n as [|n IH]; intros timeLeft st Hrunning Htimer Hpos.
  - simpl. rewrite Htimer. f_equal. lia.
  - change (repeat (Tick true) (S n)) with (Tick true :: repeat (Tick true) n).
    change (run toLowerCase (Tick true :: repeat (Tick true) n) st)
      with (run toLowerCase (repeat (Tick true) n) (tick true st)).
    destruct (tick_live h timeLeft st Hrunning Htimer) as [Hnext Hstill].
    rewrite (IH _ _ Hstill Hnext) by (destruct (Z.ltb_spec 0 timeLeft); lia).
    f_equal. destruct (Z.ltb_spec 0 timeLeft); lia.
Qed.

Lemma countdown_stops_at_zero_witness :
  batchExecuting (step ascii_cyrillic_lower BatchStart restored) = true /\
  retryTimers (step ascii_cyrillic_lower BatchStart restored) !! "10.0.0.3" = Some 12%Z /\
  (0 <= 12)%Z /\
  retryTimers (run ascii_cyrillic_lower (repeat (Tick true) 20)
                 (step ascii_cyrillic_lower BatchStart restored)) !! "10.0.0.3" =
    Some (Z.max 0 (12 - Z.of_nat 20)).
Proof.
  split; [reflexivity|]. split; [vm_compute; reflexivity|]. split; [lia|].
  apply (countdown_stops_at_zero ascii_cyrillic_lower 20 "10.0.0.3" 12
           (step ascii_cyrillic_lower BatchStart restored));
    [reflexivity|vm_compute; reflexivity|lia].
Defined.



(** X22. Handling the result of one host leaves the countdown and the
    attempt counter of every other host as they were, and never changes
    [batchExecuting]. *)
Theorem other_hosts_untouched (toLowerCase : string -> string)
    (settings : Settings) (r : BatchCommandResult) (st : State) (h : string) :
  host r <> h ->
  retryTimers (onBatchResult toLowerCase settings r st) !! h = retryTimers st !! h /\
  retryAttempts (onBatchResult toLowerCase settings r st) !! h = retryAttempts st !! h /\
  batchExecuting (onBatchResult toLowerCase settings r st) = batchExecuting st.
Proof.
  intros Hother. unfold onBatchResult.
  repeat match goal with
         | |- context [if ?b then _ else _] => destruct b eqn:?
         end;
    simpl; rewrite ?lookup_delete_ne, ?lookup_insert_ne by assumption;
    repeat split; solve [reflexivity | assumption].
Qed.

Lemma other_hosts_untouched_witness :
  host (failure "10.0.0.4" "connection timeout") <> "10.0.0.3" /\
  retryTimers (onBatchResult ascii_cyrillic_lower retryTwice
                 (failure "10.0.0.4" "connection timeout") restored) !! "10.0.0.3" =
    retryTimers restored !! "10.0.0.3" /\
  retryAttempts (onBatchResult ascii_cyrillic_lower retryTwice
                   (failure "10.0.0.4" "connection timeout") restored) !! "10.0.0.3" =
    retryAttempts restored !! "10.0.0.3" /\
  batchExecuting (onBatchResult ascii_cyrillic_lower retryTwice
                    (failure "10.0.0.4" "connection timeout") restored) =
    batchExecuting restored.
Proof.
  split; [discriminate|].
  apply (other_hosts_untouched ascii_cyrillic_lower retryTwice
           (failure "10.0.0.4" "connection timeout") restored "10.0.0.3").
  discriminate.
Defined.

(** ** The batch request and the numeric fields of the settings page *)

Import Json SettingsPage BatchPage.

Section ConfigFacts.

Variable trim : string -> string.

(** What each of the six checks of [validateSshConfig] puts in [errors]. *)
Local Abbreviation hostErrors config :=
  (if falsy (Validation.host config) || String.eqb (Validation.host config) "batch" then []
   else if negb (validateIp (Validation.host config)) &&
           negb (validateHostname (Validation.host config))
   then [hostError] else []).

Local Abbreviation portErrors config :=
  (if negb (validatePort (Validation.port config)) then [portError] else []).

Local Abbreviation usernameErrors config :=
  (if blank trim (Some (username config)) then [usernameError] else []).

Local Abbreviation passwordErrors config :=
  (if String.eqb (auth_method config) "password" then
     match password config with
     | None => [passwordError]
     | Some pw =>
       if falsy pw then [passwordError] else
       match passwordMinLength config with
       | Some minLength =>
         if negb (minLength =? 0)%Z && (Z.of_nat (Js.length pw) <? minLength)%Z
         then [("Пароль должен содержать минимум " ++ pretty minLength ++ " символов")%string]
         else []
       | None => []
       end
     end
   else []).

Local Abbreviation keyErrors config :=
  (if String.eqb (auth_method config) "key" then
     if blank trim (key_path config) then [keyError] else []
   else []).

Local Abbreviation ppkErrors config :=
  (if String.eqb (auth_method config) "ppk" then
     if blank trim (ppk_path config) then [ppkError] else []
   else []).

(** The checks run one after the other and each appends to [errors]. *)
Lemma validateSshConfig_errors (config : SshConfigInput) :
  errors (validateSshConfig trim config) =
  (hostErrors config ++ portErrors config ++ usernameErrors config ++
   passwordErrors config ++ keyErrors config ++ ppkErrors config)%list.
Proof.
  cbv beta iota zeta delta [validateSshConfig push errors].
  repeat match goal with
         | |- context [if ?b then _ else _] => destruct b
         | |- context [match ?o with Some _ => _ | None => _ end] => destruct o
         end;
    reflexivity.
Qed.

Lemma valid_no_errors (config : SshConfigInput) :
  valid (validateSshConfig trim config) = true <-> errors (validateSshConfig trim config) = [].
Proof.
  cbv beta iota zeta delta [validateSshConfig valid errors].
  rewrite Nat.eqb_eq. apply length_zero_iff_nil.
Qed.

Lemma host_check (config : SshConfigInput) :
  hostErrors config = [] <->
  falsy (Validation.host config) || String.eqb (Validation.host config) "batch" ||
  validateIp (Validation.host config) || validateHostname (Validation.host config) = true.
Proof.
  destruct (falsy _), (String.eqb _ _), (validateIp _), (validateHostname _); simpl;
    split; intros H; solve [reflexivity | discriminate].
Qed.

Lemma password_check (config : SshConfigInput) :
  passwordErrors config = [] <->
  (auth_method config = "password" ->
   exists pw, password config = Some pw /\ pw <> EmptyString /\
     forall minLength, passwordMinLength config = Some minLength ->
       minLength = 0%Z \/ (minLength <= Z.of_nat (Js.length pw))%Z).
Proof.
  destruct (String.eqb_spec (auth_method config) "password") as [Hmethod|Hmethod].
  2:{ split; [intros _ Habsurd; contradiction|reflexivity]. }
  destruct (password config) as [pw|].
  2:{ split; [discriminate|]. intros H. destruct (H Hmethod) as (pw & Hpw & _). discriminate. }
  destruct pw as [|c pw]; cbn [falsy].
  { split; [discriminate|]. intros H. destruct (H Hmethod) as (pw & Hpw & Hne & _).
    inversion Hpw. congruence. }
  destruct (passwordMinLength config) as [minLength|].
  2:{ split; [|reflexivity]. intros _ _. exists (String c pw).
      repeat split; [discriminate|]. intros minLength Habsurd. discriminate. }
  destruct (Z.eqb_spec minLength 0) as [Hzero|Hzero]; cbn [negb andb].
  { split; [|reflexivity]. intros _ _. exists (String c pw).
    repeat split; [discriminate|]. intros n Hn. inversion Hn. left. congruence. }
  destruct (Z.ltb_spec (Z.of_nat (Js.length (String c pw))) minLength) as [Hshort|Hlong].
  - split; [discriminate|]. intros H. destruct (H Hmethod) as (pw' & Hpw & _ & Hlen).
    inversion Hpw. subst pw'. destruct (Hlen minLength eq_refl); lia.
  - split; [|reflexivity]. intros _ _. exists (String c pw).
    repeat split; [discriminate|]. intros n Hn. inversion Hn. subst n. right. exact Hlong.
Qed.

Lemma path_check (method : string) (path : option string) (e : string) (config : SshConfigInput) :
  (if String.eqb (auth_method config) method then
     if blank trim path then [e] else []
   else []) = [] <->
  (auth_method config = method -> blank trim path = false).
Proof.
  destruct (String.eqb_spec (auth_method config) method) as [Hmethod|Hmethod].
  - destruct (blank trim path); split; intros H; try reflexivity; try discriminate.
    specialize (H Hmethod). discriminate.
  - split; [intros _ Habsurd; contradiction|reflexivity].
Qed.

(** X23. [validateSshConfig] answers [valid] exactly when all of its checks
    pass: the host is empty, the word batch, an IPv4 address or a host name;
    the port is in range; the user name is not blank; and the credential of
    the selected authentication method is present, a password being at least
    as long as a non-zero minimum length asks. *)
Theorem valid_iff_all_checks (config : SshConfigInput) :
  valid (validateSshConfig trim config) = true <->
  falsy (Validation.host config) || String.eqb (Validation.host config) "batch" ||
    validateIp (Validation.host config) || validateHostname (Validation.host config) = true /\
  validatePort (Validation.port config) = true /\
  blank trim (Some (username config)) = false /\
  (auth_method config = "password" ->
   exists pw, password config = Some pw /\ pw <> EmptyString /\
     forall minLength, passwordMinLength config = Some minLength ->
       minLength = 0%Z \/ (minLength <= Z.of_nat (Js.length pw))%Z) /\
  (auth_method config = "key" -> blank trim (key_path config) = false) /\
  (auth_method config = "ppk" -> blank trim (ppk_path config) = false).
Proof.
  rewrite valid_no_errors, validateSshConfig_errors, !app_nil.
  rewrite host_check, password_check.
  rewrite (path_check "key" (key_path config) keyError config).
  rewrite (path_check "ppk" (ppk_path config) ppkError config).
  assert (Hport : portErrors config = [] <-> validatePort (Validation.port config) = true).
  { destruct (validatePort _); simpl; split; intros H; solve [reflexivity | discriminate]. }
  assert (Huser : usernameErrors config = [] <-> blank trim (Some (username config)) = false).
  { destruct (blank trim _); simpl; split; intros H; solve [reflexivity | discriminate]. }
  rewrite Hport, Huser. reflexivity.
Qed.

(** X24. The three credential checks exclude one another, so a
    configuration draws at most four messages: one each for the host, the
    port and the user name, and one for the credential. *)
Theorem at_most_four_errors (config : SshConfigInput) :
  (List.length (errors (validateSshConfig trim config)) <= 4)%nat.
Proof.
  rewrite validateSshConfig_errors, !length_app.
  assert (Hhost : (List.length (hostErrors config) <= 1)%nat).
  { destruct (_ || _); [simpl; lia|]. destruct (_ && _); simpl; lia. }
  assert (Hport : (List.length (portErrors config) <= 1)%nat).
  { destruct (validatePort (Validation.port config)); simpl; lia. }
  assert (Huser : (List.length (usernameErrors config) <= 1)%nat).
  { destruct (blank trim (Some (username config))); simpl; lia. }
  assert (Hcredential :
    (List.length (passwordErrors config) + (List.length (keyErrors config) +
     List.length (ppkErrors config)) <= 1)%nat).
  { destruct (String.eqb_spec (auth_method config) "password") as [Hp|Hp];
      destruct (String.eqb_spec (auth_method config) "key") as [Hk|Hk];
      destruct (String.eqb_spec (auth_method config) "ppk") as [Hq|Hq];
      try congruence;
      repeat match goal with
             | |- context [if ?b then _ else _] => destruct b
             | |- context [match ?o with Some _ => _ | None => _ end] => destruct o
             end; simpl; lia. }
  lia.
Qed.

(** X25. A batch request is sent only after the three checks of
    [handleBatchExecute] have passed: there is a host, the command is not
    blank, the port of the template is in range and the user name is not
    blank; and the template carries the credential its authentication method
    names, a non-empty password or a path that is not blank. *)
Theorem sent_request_is_checked (hosts : list HostEntry) (command : string)
    (batchConfig : BatchConfig) (settings : Settings) (passwordMinLength : option Z)
    (request : value) :
  handleBatchExecute trim hosts command batchConfig settings passwordMinLength = Some request ->
  let template := get request "config_template" in
  hosts <> [] /\
  trim command <> EmptyString /\
  get request "command" = VString command /\
  get template "port" = VInt (bc_port batchConfig) /\
  (0 < bc_port batchConfig <= 65535)%Z /\
  blank trim (Some (bc_username batchConfig)) = false /\
  (bc_auth_method batchConfig = "password" ->
   exists pw, get template "password" = VString pw /\ pw <> EmptyString) /\
  (bc_auth_method batchConfig = "key" ->
   exists path, get template "key_path" = VString path /\ blank trim (Some path) = false) /\
  (bc_auth_method batchConfig = "ppk" ->
   exists path, get template "ppk_path" = VString path /\ blank trim (Some path) = false).
Proof.
  unfold handleBatchExecute. intros Hsent.
  destruct hosts as [|first others]; [discriminate|]. cbn [List.length Nat.eqb] in Hsent.
  destruct (trim command) as [|c text] eqn:Hcommand; [discriminate|]. cbn [falsy] in Hsent.
  destruct (valid _) eqn:Hvalid; [|discriminate]. cbn [negb] in Hsent.
  inversion Hsent as [Hrequest]. clear Hsent Hrequest request.
  apply valid_no_errors in Hvalid. rewrite validateSshConfig_errors, !app_nil in Hvalid.
  destruct Hvalid as (_ & Hport & Huser & Hpw & Hk & Hq).
  pose proof (proj1 (password_check (batchValidationInput batchConfig passwordMinLength)) Hpw)
    as Hpassword.
  pose proof (proj1 (path_check "key" (bc_key_path batchConfig) keyError
                       (batchValidationInput batchConfig passwordMinLength)) Hk) as Hkey.
  pose proof (proj1 (path_check "ppk" (bc_ppk_path batchConfig) ppkError
                       (batchValidationInput batchConfig passwordMinLength)) Hq) as Hppk.
  clear Hpw Hk Hq.
  cbn [batchValidationInput Validation.host Validation.port username auth_method password
       key_path ppk_path Validation.passwordMinLength] in Hport, Huser, Hpassword, Hkey, Hppk.
  cbv zeta. unfold batchRequest, sshConfig, when_method. simpl get.
  split; [discriminate|]. split; [discriminate|]. split; [reflexivity|].
  split; [reflexivity|]. split.
  { unfold validatePort in Hport.
    destruct (Z.ltb_spec 0 (bc_port batchConfig)), (Z.leb_spec (bc_port batchConfig) 65535);
      simpl in Hport; try discriminate. lia. }
  split.
  { destruct (blank trim (Some (bc_username batchConfig))); [discriminate|reflexivity]. }
  split; [|split].
  - intros Hmethod. destruct (Hpassword Hmethod) as (pw & Hpw & Hne & _).
    exists pw. rewrite Hmethod, Hpw. split; [reflexivity|exact Hne].
  - intros Hmethod. specialize (Hkey Hmethod). rewrite Hmethod.
    destruct (bc_key_path batchConfig) as [path|]; [|discriminate].
    exists path. split; [reflexivity|exact Hkey].
  - intros Hmethod. specialize (Hppk Hmethod). rewrite Hmethod.
    destruct (bc_ppk_path batchConfig) as [path|]; [|discriminate].
    exists path. split; [reflexivity|exact Hppk].
Qed.

End ConfigFacts.

Lemma sent_request_is_checked_witness :
  handleBatchExecute ascii_trim [hostAt "10.0.0.1"] " uptime " passwordConfig defaultSettings
    (Some 6%Z) =
  Some (batchRequest [hostAt "10.0.0.1"] passwordConfig defaultSettings " uptime ") /\
  let template :=
    get (batchRequest [hostAt "10.0.0.1"] passwordConfig defaultSettings " uptime ")
        "config_template" in
  [hostAt "10.0.0.1"] <> [] /\
  ascii_trim " uptime " <> EmptyString /\
  get (batchRequest [hostAt "10.0.0.1"] passwordConfig defaultSettings " uptime ") "command" =
    VString " uptime " /\
  get template "port" = VInt (bc_port passwordConfig) /\
  (0 < bc_port passwordConfig <= 65535)%Z /\
  blank ascii_trim (Some (bc_username passwordConfig)) = false /\
  (bc_auth_method passwordConfig = "password" ->
   exists pw, get template "password" = VString pw /\ pw <> EmptyString) /\
  (bc_auth_method passwordConfig = "key" ->
   exists path, get template "key_path" = VString path /\
                blank ascii_trim (Some path) = false) /\
  (bc_auth_method passwordConfig = "ppk" ->
   exists path, get template "ppk_path" = VString path /\
                blank ascii_trim (Some path) = false).
Proof.
  split; [reflexivity|].
  apply (sent_request_is_checked ascii_trim [hostAt "10.0.0.1"] " uptime " passwordConfig
           defaultSettings (Some 6%Z)).
  reflexivity.
Defined.

(** X26. The template of a batch request carries the credential of the
    selected authentication method only: a password, a key path or a PPK path
    is present in it only under the method of that name. *)
Theorem template_credential_matches_method (batchConfig : BatchConfig) (settings : Settings) :
  let template := sshConfig batchConfig settings in
  (get template "password" <> VUndefined -> bc_auth_method batchConfig = "password") /\
  (get template "key_path" <> VUndefined -> bc_auth_method batchConfig = "key") /\
  (get template "ppk_path" <> VUndefined -> bc_auth_method batchConfig = "ppk") /\
  (is_undefined (get template "password") && is_undefined (get template "key_path") ||
   is_undefined (get template "password") && is_undefined (get template "ppk_path") ||
   is_undefined (get template "key_path") && is_undefined (get template "ppk_path") = true).
Proof.
  cbv zeta. unfold sshConfig, when_method. simpl.
  destruct (String.eqb_spec (bc_auth_method batchConfig) "password") as [Hp|Hp];
    destruct (String.eqb_spec (bc_auth_method batchConfig) "key") as [Hk|Hk];
    destruct (String.eqb_spec (bc_auth_method batchConfig) "ppk") as [Hq|Hq];
    try congruence;
    (split; [|split; [|split]]); try congruence; try reflexivity;
    destruct (bc_password batchConfig), (bc_key_path batchConfig), (bc_ppk_path batchConfig);
    reflexivity.
Qed.



(** ** What the host validators accept *)

Import HostNames.

Section HostNameFacts.

Local Open Scope string_scope.

Lemma append_cons (a : ascii) (s1 s2 : string) : String a s1 ++ s2 = String a (s1 ++ s2).
Proof. reflexivity. Qed.

Lemma append_assoc (s1 s2 s3 : string) : (s1 ++ s2) ++ s3 = s1 ++ (s2 ++ s3).
Proof.
  induction s1 as [|a s1 IH]; [reflexivity|]. rewrite !append_cons, IH. reflexivity.
Qed.

Lemma length_append (s1 s2 : string) :
  String.length (s1 ++ s2) = (String.length s1 + String.length s2)%nat.
Proof.
  induction s1 as [|a s1 IH]; [reflexivity|]. rewrite append_cons. simpl. rewrite IH. reflexivity.
Qed.

Lemma all_chars_app (p : ascii -> bool) (s1 s2 : string) :
  all_chars p (s1 ++ s2) = all_chars p s1 && all_chars p s2.
Proof.
  induction s1 as [|a s1 IH]; [reflexivity|]. rewrite append_cons. simpl.
  rewrite IH, andb_assoc. reflexivity.
Qed.

Lemma all_chars_impl (p q : ascii -> bool) (s : string) :
  (forall c, p c = true -> q c = true) -> all_chars p s = true -> all_chars q s = true.
Proof.
  intros Hpq. induction s as [|a s IH]; simpl; [reflexivity|].
  intros H. apply andb_true_iff in H as [Ha Hs]. rewrite (Hpq a Ha), (IH Hs). reflexivity.
Qed.

Lemma last_char_app (c d : ascii) (s : string) : last_char c (s ++ String d "") = d.
Proof.
  revert c. induction s as [|a s IH]; intros c; [reflexivity|].
  rewrite append_cons. simpl. apply IH.
Qed.

(** A string that is not empty ends with its last character. *)
Lemma last_char_split (c : ascii) (s : string) :
  exists init, String c s = init ++ String (last_char c s) "".
Proof.
  revert c. induction s as [|a s IH]; intros c.
  - exists "". reflexivity.
  - destruct (IH a) as [init Hinit]. exists (String c init).
    simpl last_char. rewrite append_cons, <- Hinit. reflexivity.
Qed.

Lemma lang_eps_inv (s : string) : lang Eps s -> s = "".
Proof. inversion 1. reflexivity. Qed.

(** [[p]{0,n}] matches the strings of at most [n] characters of [p]. *)
Lemma upto_class (p : ascii -> bool) (n : nat) :
  forall s, lang (upto n (Class p)) s <->
            all_chars p s = true /\ (String.length s <= n)%nat.
Proof.
  induction n as [|n IH]; intros s; simpl upto.
  - split.
    + intros H. apply lang_eps_inv in H. subst s. split; [reflexivity|simpl; lia].
    + intros [_ Hlen]. destruct s; [constructor|simpl in Hlen; lia].
  - split.
    + intros H. apply lang_alt_inv in H as [H|H].
      * apply lang_eps_inv in H. subst s. split; [reflexivity|simpl; lia].
      * apply lang_cat_inv in H as (s1 & s2 & -> & H1 & H2).
        apply lang_class_inv in H1 as (c & -> & Hc). apply IH in H2 as [Hall Hlen].
        rewrite append_cons. change ("" ++ s2) with s2. simpl.
        rewrite Hc, Hall. split; [reflexivity|lia].
    + intros [Hall Hlen]. destruct s as [|c s]; [apply lang_alt_l; constructor|].
      simpl in Hall, Hlen. apply andb_true_iff in Hall as [Hc Hall].
      apply lang_alt_r. change (String c s) with (String c "" ++ s).
      constructor; [constructor; exact Hc|]. apply IH. split; [exact Hall|lia].
Qed.

Lemma letterOrDigit_labelChar (c : ascii) : letterOrDigit c = true -> labelChar c = true.
Proof. intros H. unfold labelChar. rewrite H. reflexivity. Qed.

(** The pattern of a label matches the labels. *)
Lemma label_lang (s : string) : lang label s <-> isLabel s = true.
Proof.
  unfold label. split.
  - intros H. apply lang_cat_inv in H as (s1 & s2 & -> & H1 & H2).
    apply lang_class_inv in H1 as (c & -> & Hc). change (letterOrDigit c = true) in Hc.
    rewrite append_cons. change ("" ++ s2) with s2.
    apply lang_alt_inv in H2 as [H2|H2].
    + apply lang_eps_inv in H2. subst s2. simpl. rewrite Hc. reflexivity.
    + apply lang_cat_inv in H2 as (m & e & -> & Hm & He).
      apply lang_class_inv in He as (d & -> & Hd). change (letterOrDigit d = true) in Hd.
      apply lang_cat_inv in Hm as (m0 & m' & -> & Hm0 & Hm').
      apply lang_eps_inv in Hm0. subst m0. change ("" ++ m') with m'.
      apply (upto_class labelChar 61) in Hm' as [Hall Hlen].
      unfold isLabel. rewrite last_char_app, all_chars_app, length_append, Hc, Hall, Hd.
      simpl. rewrite (letterOrDigit_labelChar d Hd). simpl. apply Nat.leb_le. lia.
  - intros H. destruct s as [|c rest]; [discriminate|]. unfold isLabel in H.
    apply andb_true_iff in H as [H Hlen]. apply andb_true_iff in H as [H Hlast].
    apply andb_true_iff in H as [Hc Hall]. apply Nat.leb_le in Hlen.
    change (String c rest) with (String c "" ++ rest).
    constructor; [constructor; exact Hc|].
    destruct rest as [|a rest]; [apply lang_alt_l; constructor|]. apply lang_alt_r.
    simpl last_char in Hlast. destruct (last_char_split a rest) as [init Hinit].
    rewrite Hinit in Hall, Hlen |- *. rewrite all_chars_app in Hall.
    apply andb_true_iff in Hall as [Hall _]. rewrite length_append in Hlen. simpl in Hlen.
    constructor; [|constructor; exact Hlast].
    change init with ("" ++ init). constructor; [constructor|].
    apply (upto_class labelChar 61). split; [exact Hall|lia].
Qed.

(** *** Splitting at the dots *)

Local Abbreviation dotless := (all_chars (fun c => negb (Ascii.eqb c ".")))%char.

Lemma labelChar_dotless (s : string) : all_chars labelChar s = true -> dotless s = true.
Proof.
  apply all_chars_impl. intros c Hc. destruct (Ascii.eqb_spec c "."%char) as [->|_];
    [discriminate|reflexivity].
Qed.

Lemma isLabel_dotless (s : string) : isLabel s = true -> dotless s = true.
Proof.
  destruct s as [|c rest]; [discriminate|]. unfold isLabel. intros H.
  apply andb_true_iff in H as [H _]. apply andb_true_iff in H as [H _].
  apply andb_true_iff in H as [Hc Hall]. apply labelChar_dotless. simpl.
  rewrite (letterOrDigit_labelChar c Hc), Hall. reflexivity.
Qed.

Lemma split_not_empty (sep : ascii) (s : string) : split sep s <> [].
Proof.
  induction s as [|c s IH]; simpl; [discriminate|].
  destruct (Ascii.eqb c sep); [discriminate|]. destruct (split sep s); discriminate.
Qed.

Lemma split_dotless (s : string) : dotless s = true -> split "." s = [s].
Proof.
  induction s as [|c s IH]; simpl; [reflexivity|]. intros H.
  apply andb_true_iff in H as [Hc Hs]. apply negb_true_iff in Hc. rewrite Hc, (IH Hs).
  reflexivity.
Qed.

Lemma split_app_dot (s more : string) :
  dotless s = true -> split "." (s ++ String "." more) = s :: split "." more.
Proof.
  induction s as [|c s IH]; simpl; [reflexivity|]. intros H.
  apply andb_true_iff in H as [Hc Hs]. apply negb_true_iff in Hc.
  rewrite Hc, (IH Hs). reflexivity.
Qed.

Lemma split_single (s part : string) : split "." s = [part] -> s = part /\ dotless s = true.
Proof.
  revert part. induction s as [|c s IH]; simpl; intros part H.
  - inversion H. split; reflexivity.
  - destruct (Ascii.eqb c ".") eqn:Hc.
    + inversion H as [[Hpart Hrest]]. destruct (split_not_empty "." s Hrest).
    + destruct (split "." s) as [|p ps] eqn:Hs; [destruct (split_not_empty "." s Hs)|].
      inversion H. subst. destruct (IH p eq_refl) as [-> Hdot].
      rewrite Hdot. split; reflexivity.
Qed.

Lemma split_cons (s part next : string) (parts : list string) :
  split "." s = part :: next :: parts ->
  exists more, s = part ++ String "." more /\ split "." more = next :: parts /\
               dotless part = true.
Proof.
  revert part. induction s as [|c s IH]; simpl; intros part H; [discriminate|].
  destruct (Ascii.eqb_spec c "."%char) as [->|Hc].
  - inversion H. subst. exists s. repeat split; assumption.
  - destruct (split "." s) as [|p ps] eqn:Hs; [destruct (split_not_empty "." s Hs)|].
    inversion H. subst. destruct (IH p eq_refl) as (more & -> & Hmore & Hdot).
    exists more. rewrite append_cons. simpl.
    destruct (Ascii.eqb_spec c "."%char) as [|_]; [contradiction|].
    rewrite Hdot. repeat split; assumption.
Qed.

(** *** Host names *)

Local Abbreviation moreLabels := (Star (Cat (Chr ".") label)).

Lemma more_labels_split (rest : string) :
  lang moreLabels rest ->
  forall part, dotless part = true ->
  forallb isLabel (split "." (part ++ rest)) = isLabel part.
Proof.
  intros H. remember moreLabels as R eqn:HR.
  induction H as [| | | | | |r0 s1 s2 H1 _ H2 IH2]; try discriminate; intros part Hpart.
  - rewrite append_empty_r, (split_dotless part Hpart). simpl. apply andb_true_r.
  - injection HR as ->. apply lang_cat_inv in H1 as (dot & l1 & -> & Hdot & Hl1).
    apply lang_class_inv in Hdot as (c & -> & Hc). apply Ascii.eqb_eq in Hc. subst c.
    apply label_lang in Hl1.
    change ((String "." "" ++ l1) ++ s2) with (String "." (l1 ++ s2)).
    rewrite (split_app_dot part _ Hpart). simpl.
    rewrite (IH2 eq_refl l1 (isLabel_dotless l1 Hl1)), Hl1. apply andb_true_r.
Qed.

Lemma labels_match (parts : list string) :
  forall s, split "." s = parts -> forallb isLabel parts = true -> lang hostnameRegex s.
Proof.
  induction parts as [|part parts IH]; intros s Hsplit Hlabels.
  - destruct (split_not_empty "." s Hsplit).
  - simpl in Hlabels. apply andb_true_iff in Hlabels as [Hpart Hparts].
    destruct parts as [|next parts].
    + apply split_single in Hsplit as [-> _]. rewrite <- (append_empty_r part).
      constructor; [apply label_lang; exact Hpart|constructor].
    + apply split_cons in Hsplit as (more & -> & Hmore & _).
      specialize (IH more Hmore Hparts).
      apply lang_cat_inv in IH as (l1 & rest & -> & Hl1 & Hrest).
      constructor; [apply label_lang; exact Hpart|].
      change (String "." (l1 ++ rest)) with ((String "." "" ++ l1) ++ rest).
      constructor; [|exact Hrest].
      constructor; [constructor; reflexivity|exact Hl1].
Qed.

Lemma hostname_lang (s : string) :
  lang hostnameRegex s <-> forallb isLabel (split "." s) = true.
Proof.
  split.
  - intros H. apply lang_cat_inv in H as (l0 & rest & -> & Hl0 & Hrest).
    apply label_lang in Hl0.
    rewrite (more_labels_split rest Hrest l0 (isLabel_dotless l0 Hl0)). exact Hl0.
  - apply labels_match. reflexivity.
Qed.

(** X28. [validateHostname] accepts exactly the names of at most 253
    characters that are made of labels separated by single dots, each label
    one to 63 letters, digits and hyphens that begins and ends with a letter
    or a digit. *)
Theorem validateHostname_labels (hostname : string) :
  validateHostname hostname =
  negb (Js.length hostname =? 0)%nat && (Js.length hostname <=? 253)%nat &&
  forallb isLabel (split "." hostname).
Proof.
  unfold validateHostname.
  assert (Hmatch : test hostnameRegex hostname = forallb isLabel (split "." hostname)).
  { apply eq_true_iff_eq. rewrite test_lang. apply hostname_lang. }
  rewrite Hmatch.
  destruct (Nat.eqb_spec (Js.length hostname) 0) as [Hempty|Hfull]; [reflexivity|].
  destruct (Nat.ltb_spec 253 (Js.length hostname)) as [Hlong|Hshort];
    destruct (Nat.leb_spec (Js.length hostname) 253); try lia; reflexivity.
Qed.

Local Abbreviation isDigit := (between "0" "9")%char.

(** The test [validateIp] applies to each part of the address. *)
Local Abbreviation octetPasses part :=
  (if Nat.ltb 1 (Js.length part) && startsWith part "0" then false else
   match Number part with
   | Some num => (0 <=? num)%N && (num <=? 255)%N
   | None => false
   end).

Lemma digit_char (c : ascii) :
  isDigit c = true ->
  (N_of_ascii c - 48 < 10)%N /\ pretty_N_char (N_of_ascii c - 48) = c /\ code_units c = 1%nat /\
  (c <> "0"%char -> (0 < N_of_ascii c - 48)%N).
Proof.
  destruct c as [[|] [|] [|] [|] [|] [|] [|] [|]]; intros H; try discriminate H;
    (split; [reflexivity|split; [reflexivity|split; [reflexivity|]]]);
    intros Hzero; solve [reflexivity | contradiction Hzero; reflexivity].
Qed.

Lemma digits_dotless (s : string) : all_chars isDigit s = true -> dotless s = true.
Proof.
  apply all_chars_impl. intros c Hc. destruct (Ascii.eqb_spec c "."%char) as [->|_];
    [discriminate|reflexivity].
Qed.

Lemma digits_length (s : string) : all_chars isDigit s = true -> Js.length s = String.length s.
Proof.
  induction s as [|c s IH]; simpl; [reflexivity|]. intros H.
  apply andb_true_iff in H as [Hc Hs]. destruct (digit_char c Hc) as (_ & _ & Hunit & _).
  rewrite Hunit, (IH Hs). reflexivity.
Qed.

(** [\d{1,3}] *)
Lemma digit_lang (s : string) :
  lang (Repeat 1 3 digit) s <->
  all_chars isDigit s = true /\ (1 <= String.length s <= 3)%nat.
Proof.
  unfold Repeat, digit. simpl power. simpl Nat.sub. split.
  - intros H. apply lang_cat_inv in H as (s1 & s2 & -> & H1 & H2).
    apply lang_cat_inv in H1 as (s0 & e & -> & H0 & He).
    apply lang_eps_inv in He. subst e. apply lang_class_inv in H0 as (c & -> & Hc).
    apply (upto_class isDigit 2) in H2 as [Hall Hlen].
    rewrite append_empty_r, all_chars_app, length_append. simpl. rewrite Hc, Hall.
    split; [reflexivity|lia].
  - intros [Hall Hlen]. destruct s as [|c s]; [simpl in Hlen; lia|].
    simpl in Hall, Hlen. apply andb_true_iff in Hall as [Hc Hall].
    change (String c s) with ((String c "" ++ "") ++ s).
    constructor; [constructor; constructor; exact Hc|].
    apply (upto_class isDigit 2). split; [exact Hall|lia].
Qed.

Lemma ip_lang (ip : string) :
  lang ipRegex ip <->
  exists s1 s2 s3 s4,
    ip = s1 ++ String "." (s2 ++ String "." (s3 ++ String "." s4)) /\
    lang (Repeat 1 3 digit) s1 /\ lang (Repeat 1 3 digit) s2 /\
    lang (Repeat 1 3 digit) s3 /\ lang (Repeat 1 3 digit) s4.
Proof.
  unfold ipRegex. set (D := Repeat 1 3 digit). unfold Repeat at 1. simpl power. simpl Nat.sub.
  simpl upto. split.
  - intros H. apply lang_cat_inv in H as (front & s4 & -> & Hfront & H4).
    apply lang_cat_inv in Hfront as (three & e & -> & Hthree & He).
    apply lang_eps_inv in He. subst e.
    apply lang_cat_inv in Hthree as (p1 & two & -> & Hp1 & Htwo).
    apply lang_cat_inv in Htwo as (p2 & one & -> & Hp2 & Hone).
    apply lang_cat_inv in Hone as (p3 & e & -> & Hp3 & He).
    apply lang_eps_inv in He. subst e.
    apply lang_cat_inv in Hp1 as (s1 & dot & -> & H1 & Hdot).
    apply lang_class_inv in Hdot as (c & -> & Hc). apply Ascii.eqb_eq in Hc. subst c.
    apply lang_cat_inv in Hp2 as (s2 & dot & -> & H2 & Hdot).
    apply lang_class_inv in Hdot as (c & -> & Hc). apply Ascii.eqb_eq in Hc. subst c.
    apply lang_cat_inv in Hp3 as (s3 & dot & -> & H3 & Hdot).
    apply lang_class_inv in Hdot as (c & -> & Hc). apply Ascii.eqb_eq in Hc. subst c.
    exists s1, s2, s3, s4. split; [|auto].
    rewrite !append_empty_r, !append_assoc. reflexivity.
  - intros (s1 & s2 & s3 & s4 & -> & H1 & H2 & H3 & H4).
    assert (Hdot : lang (Chr ".") (String "." "")) by (constructor; reflexivity).
    replace (s1 ++ String "." (s2 ++ String "." (s3 ++ String "." s4)))
      with ((((s1 ++ String "." "") ++ ((s2 ++ String "." "") ++
              ((s3 ++ String "." "") ++ ""))) ++ "") ++ s4)
      by (rewrite !append_empty_r, !append_assoc; reflexivity).
    repeat (constructor; try assumption).
Qed.

Lemma pretty_N_go_app (x : N) :
  forall s, pretty_N_go x s = pretty_N_go x "" ++ s.
Proof.
  induction x as [x IH] using (well_founded_induction N.lt_wf_0). intros s.
  destruct (N.eq_dec x 0%N) as [->|Hpos]; [rewrite !pretty_N_go_0; reflexivity|].
  rewrite (pretty_N_go_step x s), (pretty_N_go_step x "") by lia.
  assert (Hless : (x `div` 10 < x)%N) by (apply N.div_lt; lia).
  rewrite (IH _ Hless (String _ s)), (IH _ Hless (String _ "")), append_assoc. reflexivity.
Qed.

(** Reading decimal digits undoes writing them. *)
Lemma digits_pretty_go (s : string) :
  forall acc n, all_chars isDigit s = true -> (0 < acc)%N -> digits acc s = Some n ->
  (0 < n)%N /\ pretty_N_go n "" = pretty_N_go acc "" ++ s.
Proof.
  induction s as [|c s IH]; intros acc n Hall Hacc Hread; simpl in *.
  - inversion Hread. subst n. rewrite append_empty_r. split; [exact Hacc|reflexivity].
  - apply andb_true_iff in Hall as [Hc Hall]. rewrite Hc in Hread.
    destruct (digit_char c Hc) as (Hsmall & Hchar & _ & _).
    set (d := (N_of_ascii c - 48)%N) in *.
    destruct (IH (10 * acc + d)%N n Hall ltac:(lia) Hread) as [Hn Hwritten].
    split; [exact Hn|]. rewrite Hwritten, (pretty_N_go_step (10 * acc + d) "") by lia.
    replace ((10 * acc + d) `div` 10)%N with acc
      by (apply (N.div_unique _ 10 acc d); lia).
    replace ((10 * acc + d) `mod` 10)%N with d
      by (apply (N.mod_unique _ 10 acc d); lia).
    rewrite Hchar, (pretty_N_go_app acc (String c "")), append_assoc. reflexivity.
Qed.

Lemma octet_pretty (s : string) :
  all_chars isDigit s = true -> s <> "" -> octetPasses s = true ->
  exists n, (n <= 255)%N /\ s = pretty n.
Proof.
  intros Hall Hfull Hpass. destruct s as [|c s]; [contradiction|].
  pose proof (digits_length _ Hall) as Hlength. simpl in Hall.
  apply andb_true_iff in Hall as [Hc Hall].
  destruct (digit_char c Hc) as (Hsmall & Hchar & _ & Hpositive).
  destruct (Ascii.eqb_spec c "0"%char) as [->|Hnonzero].
  - destruct s as [|c2 s]; [exists 0%N; split; [lia|reflexivity]|].
    rewrite Hlength in Hpass. simpl in Hpass. discriminate.
  - destruct (_ && _) in Hpass; [discriminate|].
    unfold Number in Hpass. simpl in Hpass. rewrite Hc in Hpass.
    destruct (digits _ s) as [n|] eqn:Hread; [|discriminate].
    apply andb_true_iff in Hpass as [_ Hle]. apply N.leb_le in Hle.
    specialize (Hpositive Hnonzero). set (d := (N_of_ascii c - 48)%N) in *.
    replace (10 * 0 + d)%N with d in Hread by lia.
    destruct (digits_pretty_go s d n Hall Hpositive Hread) as [Hn Hwritten].
    exists n. split; [exact Hle|]. unfold pretty, pretty_N.
    destruct (decide (n = 0%N)) as [Hzero|_]; [lia|]. rewrite Hwritten.
    rewrite (pretty_N_go_step d "") by lia.
    rewrite (N.div_small d 10), (N.mod_small d 10), pretty_N_go_0, Hchar by lia.
    reflexivity.
Qed.

Lemma pretty_octet (n : N) :
  (n <= 255)%N ->
  all_chars isDigit (pretty n) = true /\ (1 <= String.length (pretty n) <= 3)%nat /\
  octetPasses (pretty n) = true.
Proof.
  intros Hn.
  assert (Hall : forallb (fun k =>
            all_chars isDigit (pretty k) && (1 <=? String.length (pretty k))%nat &&
            (String.length (pretty k) <=? 3)%nat && octetPasses (pretty k))
            (map N.of_nat (seq 0 256)) = true) by (vm_compute; reflexivity).
  rewrite forallb_forall in Hall. specialize (Hall n).
  assert (Hin : In n (map N.of_nat (seq 0 256))).
  { apply in_map_iff. exists (N.to_nat n). split; [apply N2Nat.id|]. apply in_seq. lia. }
  apply Hall in Hin. apply andb_true_iff in Hin as [Hin Hpass].
  apply andb_true_iff in Hin as [Hin Hhigh]. apply andb_true_iff in Hin as [Hdigits Hlow].
  apply Nat.leb_le in Hlow, Hhigh. repeat split; assumption.
Qed.

Lemma split_quad (s1 s2 s3 s4 : string) :
  all_chars isDigit s1 = true -> all_chars isDigit s2 = true ->
  all_chars isDigit s3 = true -> all_chars isDigit s4 = true ->
  split "." (s1 ++ String "." (s2 ++ String "." (s3 ++ String "." s4))) = [s1; s2; s3; s4].
Proof.
  intros H1 H2 H3 H4.
  rewrite !split_app_dot, split_dotless by (apply digits_dotless; assumption). reflexivity.
Qed.

Lemma last_char_all (p : ascii -> bool) (s : string) :
  forall c, p c = true -> all_chars p s = true -> p (last_char c s) = true.
Proof.
  induction s as [|a s IH]; intros c Hc Hall; simpl in *; [exact Hc|].
  apply andb_true_iff in Hall as [Ha Hs]. apply IH; assumption.
Qed.

Lemma digit_letterOrDigit (c : ascii) : isDigit c = true -> letterOrDigit c = true.
Proof. intros H. unfold letterOrDigit. rewrite H. apply orb_true_r. Qed.

(** One to three digits make a label. *)
Lemma digits_label (s : string) :
  all_chars isDigit s = true -> (1 <= String.length s <= 3)%nat -> isLabel s = true.
Proof.
  intros Hall Hlen. apply (all_chars_impl _ _ _ digit_letterOrDigit) in Hall.
  destruct s as [|c rest]; [simpl in Hlen; lia|]. simpl in Hall, Hlen.
  apply andb_true_iff in Hall as [Hc Hrest]. unfold isLabel.
  rewrite Hc, (all_chars_impl _ _ _ letterOrDigit_labelChar Hrest),
    (last_char_all letterOrDigit rest c Hc Hrest).
  simpl. apply Nat.leb_le. lia.
Qed.

Lemma length_append_js (s1 s2 : string) :
  Js.length (s1 ++ s2) = (Js.length s1 + Js.length s2)%nat.
Proof.
  induction s1 as [|a s1 IH]; [reflexivity|]. rewrite append_cons. simpl. rewrite IH. lia.
Qed.

End HostNameFacts.

(** X29. [validateIp] accepts exactly the dotted quads: the strings
    [a.b.c.d] in which each of the four numbers is at most 255 and is written
    in decimal without leading zeros. *)
Theorem validateIp_dotted_quads (ip : string) :
  validateIp ip = true <->
  exists a b c d : N,
    (a <= 255)%N /\ (b <= 255)%N /\ (c <= 255)%N /\ (d <= 255)%N /\ ip = dottedQuad a b c d.
Proof.
  unfold validateIp. split.
  - destruct (test ipRegex ip) eqn:Hmatch; [|discriminate]. simpl negb. cbv iota zeta.
    apply test_lang, ip_lang in Hmatch as (s1 & s2 & s3 & s4 & -> & H1 & H2 & H3 & H4).
    apply digit_lang in H1 as [D1 L1], H2 as [D2 L2], H3 as [D3 L3], H4 as [D4 L4].
    rewrite (split_quad s1 s2 s3 s4 D1 D2 D3 D4). cbn [forallb]. intros Hparts.
    apply andb_true_iff in Hparts as [P1 Hparts]. apply andb_true_iff in Hparts as [P2 Hparts].
    apply andb_true_iff in Hparts as [P3 Hparts]. apply andb_true_iff in Hparts as [P4 _].
    assert (Hfull : forall s, (1 <= String.length s)%nat -> s <> EmptyString).
    { intros s Hs ->. simpl in Hs. lia. }
    destruct (octet_pretty s1 D1 (Hfull s1 ltac:(lia)) P1) as (a & Ha & ->).
    destruct (octet_pretty s2 D2 (Hfull s2 ltac:(lia)) P2) as (b & Hb & ->).
    destruct (octet_pretty s3 D3 (Hfull s3 ltac:(lia)) P3) as (c & Hc & ->).
    destruct (octet_pretty s4 D4 (Hfull s4 ltac:(lia)) P4) as (d & Hd & ->).
    exists a, b, c, d. repeat split; assumption.
  - intros (a & b & c & d & Ha & Hb & Hc & Hd & ->).
    destruct (pretty_octet a Ha) as (D1 & L1 & P1), (pretty_octet b Hb) as (D2 & L2 & P2),
             (pretty_octet c Hc) as (D3 & L3 & P3), (pretty_octet d Hd) as (D4 & L4 & P4).
    change (dottedQuad a b c d)
      with (pretty a ++ String "." (pretty b ++ String "." (pretty c ++ String "." (pretty d))))%string.
    assert (Hmatch : test ipRegex
              (pretty a ++ String "." (pretty b ++ String "." (pretty c ++ String "." (pretty d))))%string
              = true).
    { apply test_lang, ip_lang. exists (pretty a), (pretty b), (pretty c), (pretty d).
      split; [reflexivity|]. repeat split; apply digit_lang; split; assumption. }
    rewrite Hmatch. simpl negb. cbv iota zeta.
    rewrite (split_quad _ _ _ _ D1 D2 D3 D4). cbn [forallb].
    rewrite P1, P2, P3, P4. reflexivity.
Qed.

(** X30. Every address [validateIp] accepts is also accepted by
    [validateHostname], its four numbers being labels of digits: the host
    check of [validateSshConfig] lets through what [validateHostname] lets
    through, and nothing else. *)
Theorem address_is_hostname (ip : string) :
  validateIp ip = true -> validateHostname ip = true.
Proof.
  unfold validateIp, validateHostname.
  destruct (test ipRegex ip) eqn:Hmatch; [|discriminate]. intros _.
  apply test_lang, ip_lang in Hmatch as (s1 & s2 & s3 & s4 & -> & H1 & H2 & H3 & H4).
  apply digit_lang in H1 as [D1 L1], H2 as [D2 L2], H3 as [D3 L3], H4 as [D4 L4].
  assert (Hlabels : test hostnameRegex
            (s1 ++ String "." (s2 ++ String "." (s3 ++ String "." s4)))%string = true).
  { apply test_lang, hostname_lang. rewrite (split_quad s1 s2 s3 s4 D1 D2 D3 D4).
    cbn [forallb]. rewrite !digits_label by assumption. reflexivity. }
  rewrite Hlabels.
  assert (Hlength : Js.length (s1 ++ String "." (s2 ++ String "." (s3 ++ String "." s4)))%string =
                    (String.length s1 + String.length s2 + String.length s3 +
                     String.length s4 + 3)%nat).
  { rewrite length_append_js. cbn [Js.length]. rewrite length_append_js. cbn [Js.length].
    rewrite length_append_js. cbn [Js.length].
    rewrite !digits_length by assumption. change (code_units ".") with 1%nat. lia. }
  rewrite Hlength.
  destruct (Nat.eqb_spec (String.length s1 + String.length s2 + String.length s3 +
                          String.length s4 + 3) 0) as [Hzero|_]; [lia|].
  destruct (Nat.ltb_spec 253 (String.length s1 + String.length s2 + String.length s3 +
                              String.length s4 + 3)) as [Hlong|_]; [lia|].
  reflexivity.
Qed.

Lemma address_is_hostname_witness :
  validateIp "192.168.1.10" = true /\ validateHostname "192.168.1.10" = true.
Proof.
  split; [reflexivity|]. apply (address_is_hostname "192.168.1.10"). reflexivity.
Defined.
